(** * recollection: snapshot history, restore and lock-step groups

    A shallow embedding of [recollection/core.py]: the [Memento] tracker, its
    [_ItemToRecord] bindings and the [_SyncGroupPropogation] guard, followed by
    the properties of the store / restore state machine.
    [Signal] of [recollection/signal.py] and [Inference.__setattr__] of
    [recollection/inference.py] are embedded beside them.  [register],
    [store] and [restore] come twice: as the tracker runs them while nothing
    is connected to its signals, and with the connected slots as a parameter
    ([register_with], [store_with], [restore_with]); [unregister] takes the
    slots.

    Python objects are mutable and shared, so the program state is explicit:
    a [world] holds the live objects, every tracker, and the two class level
    lists [Memento._SYNC_GROUPS] and
    [_SyncGroupPropogation._ACTIVELY_PROCESSING].  Methods are computations in
    a state-and-exception monad over [world]; an exception leaves the state
    as it was when it was raised. *)

From Stdlib Require Import ZArith Lia.
From stdpp Require Import gmap strings list functions.

(** ** Values and objects *)

(** The values held by attributes, up to equality: [None], booleans,
    integers and strings.  These are immutable, so nothing here can tell a
    value from its copy.  For a binding with [copy_value=True] this is no
    restriction, since a snapshot then holds copies that are equal to what the
    getter answered and share nothing with the live objects.  A binding with
    [copy_value=False] whose value is a mutable object changed in place, which
    the snapshot then follows, is outside the embedding. *)
Inductive value : Type :=
  | VNone
  | VBool (b : bool)
  | VInt (n : Z)
  | VStr (s : string).

#[global] Instance value_eq_dec : EqDecision value.
Proof. solve_decision. Defined.

(** [copy.deepcopy] answers an equal value. *)
Definition deepcopy (v : value) : value :=
  match v with
  | VNone => VNone
  | VBool b => VBool b
  | VInt n => VInt n
  | VStr s => VStr s
  end.

(** An observed object: its instance dictionary and its truth value (what
    [bool(obj)] answers, through [__bool__] or [__len__]; [true] for a class
    that defines neither). *)
Record object : Type := Object {
  attrs : gmap string value;
  truth : bool }.

Definition setattr (o : object) (name : string) (v : value) : object :=
  {| attrs := <[name := v]> (attrs o); truth := truth o |}.

(** Objects are named by identity.  A weak reference is such a name: it
    answers the object while it is in the heap and [None] once collected. *)
Abbreviation heap_t := (gmap nat object).

Inductive exn : Type :=
  | RegistrationError
  | StorageError
  | TypeError
  | IndexError
  | KeyError
  | AttributeError
  | ValueError
  | Exception.

#[global] Instance exn_eq_dec : EqDecision exn.
Proof. solve_decision. Defined.

Inductive result (A : Type) : Type :=
  | Ok (a : A)
  | Raise (e : exn)
  | OutOfFuel.
Arguments Ok {A} a.
Arguments Raise {A} e.
Arguments OutOfFuel {A}.

(** A callable given as getter or setter that acts on the observed objects
    only: a reader of the live objects called with no argument, or a writer
    called with the value.  Calling one with the other's arguments is a
    [TypeError].  A callable that calls the tracker again (a method decorated
    with [infer.store], a setter that opens an [omit] window) is not of this
    form; the statements that depend on what the accessors do are made for
    attribute names. *)
Inductive callable : Type :=
  | Fn0 (f : heap_t -> value)
  | Fn1 (g : value -> heap_t -> heap_t).

(** What [register] accepts as getter and setter: an attribute name (a
    string) or a callable. *)
Inductive accessor : Type :=
  | Attr (name : string)
  | Call (c : callable).

Definition is_callable (a : accessor) : bool :=
  match a with
  | Attr _ => false
  | Call _ => true
  end.

(** Python's [x or y] on an optional accessor: [None] and the empty string
    are false. *)
Definition py_or (x : option accessor) (y : accessor) : accessor :=
  match x with
  | None => y
  | Some (Attr "") => y
  | Some a => a
  end.

(** ** _ItemToRecord *)

Module _ItemToRecord.

Record t : Type := Build {
  label : string;
  _target : nat;
  _getter : accessor;
  _setter : accessor;
  _copy_value : bool }.

Definition _get_is_callable (self : t) : bool := is_callable (_getter self).
Definition _set_is_callable (self : t) : bool := is_callable (_setter self).

(** [__init__] receives the label [register] computed, which is a callable
    when no label was given for a callable getter. *)
Definition __init__ (target : nat) (label : accessor) (getter setter : accessor)
    (copy_value : bool) : result t :=
  match label with
  | Attr s => Ok (Build s target getter setter copy_value)
  | Call _ => Raise TypeError
  end.

Definition _copy (self : t) (item : value) : value :=
  if _copy_value self then deepcopy item else item.

Definition get (self : t) (heap : heap_t) : result value :=
  match _getter self with
  | Call (Fn0 f) => Ok (_copy self (f heap))
  | Call (Fn1 _) => Raise TypeError
  | Attr name =>
      match heap !! _target self with
      | Some o =>
          match attrs o !! name with
          | Some v => Ok (_copy self v)
          | None => Raise AttributeError
          end
      | None => Raise AttributeError
      end
  end.

Definition set (self : t) (v : value) (heap : heap_t) : result heap_t :=
  match _setter self with
  | Call (Fn1 g) => Ok (g v heap)
  | Call (Fn0 _) => Raise TypeError
  | Attr _ =>
      match heap !! _target self with
      | Some o => Ok (<[_target self := setattr o (label self) v]> heap)
      | None => Raise AttributeError
      end
  end.

End _ItemToRecord.

(** ** Memento: the tracker object *)

Record Memento : Type := {
  _defer : bool;
  _target : nat;
  _states : list (gmap string value);
  _max_states : Z;
  _items_to_record : list _ItemToRecord.t;
  _serialiser : bool;
  _serialisation_identifier : string;
  _always_serialise : bool }.

Definition __init__ (target : nat) (max_states : Z) : Memento :=
  {| _defer := false;
     _target := target;
     _states := [];
     _max_states := max_states;
     _items_to_record := [];
     _serialiser := false;
     _serialisation_identifier := "";
     _always_serialise := false |}.

Definition set_defer (b : bool) (m : Memento) : Memento :=
  {| _defer := b;
     _target := _target m;
     _states := _states m;
     _max_states := _max_states m;
     _items_to_record := _items_to_record m;
     _serialiser := _serialiser m;
     _serialisation_identifier := _serialisation_identifier m;
     _always_serialise := _always_serialise m |}.

Definition set_states (s : list (gmap string value)) (m : Memento) : Memento :=
  {| _defer := _defer m;
     _target := _target m;
     _states := s;
     _max_states := _max_states m;
     _items_to_record := _items_to_record m;
     _serialiser := _serialiser m;
     _serialisation_identifier := _serialisation_identifier m;
     _always_serialise := _always_serialise m |}.

Definition set_items (l : list _ItemToRecord.t) (m : Memento) : Memento :=
  {| _defer := _defer m;
     _target := _target m;
     _states := _states m;
     _max_states := _max_states m;
     _items_to_record := l;
     _serialiser := _serialiser m;
     _serialisation_identifier := _serialisation_identifier m;
     _always_serialise := _always_serialise m |}.

Definition set_serialiser (registered : bool) (identifier : string)
    (always : bool) (m : Memento) : Memento :=
  {| _defer := _defer m;
     _target := _target m;
     _states := _states m;
     _max_states := _max_states m;
     _items_to_record := _items_to_record m;
     _serialiser := registered;
     _serialisation_identifier := identifier;
     _always_serialise := always |}.

(** ** The program state *)

(** The four signals of a tracker.  Every emit is recorded, in order, in
    [events]; the calls of the connected slots are the matter of [emit_to]. *)
Inductive event : Type :=
  | Registered (m : nat)
  | Unregistered (m : nat)
  | Stored (m : nat)
  | Restored (m : nat).

#[global] Instance event_eq_dec : EqDecision event.
Proof. solve_decision. Defined.

(** The live objects, the trackers by identity, the two class attributes, what
    the persistence backend holds under each identifier, and the signals
    emitted so far. *)
Record world : Type := World {
  heap : gmap nat object;
  mementos : nat -> Memento;
  _SYNC_GROUPS : list (list nat);
  _ACTIVELY_PROCESSING : list nat;
  disk : gmap string (gmap string value);
  events : list event }.

Definition set_heap (h : gmap nat object) (w : world) : world :=
  World h (mementos w) (_SYNC_GROUPS w) (_ACTIVELY_PROCESSING w) (disk w) (events w).
Definition set_mementos (f : nat -> Memento) (w : world) : world :=
  World (heap w) f (_SYNC_GROUPS w) (_ACTIVELY_PROCESSING w) (disk w) (events w).
Definition set_groups (g : list (list nat)) (w : world) : world :=
  World (heap w) (mementos w) g (_ACTIVELY_PROCESSING w) (disk w) (events w).
Definition set_active (a : list nat) (w : world) : world :=
  World (heap w) (mementos w) (_SYNC_GROUPS w) a (disk w) (events w).
Definition set_disk (d : gmap string (gmap string value)) (w : world) : world :=
  World (heap w) (mementos w) (_SYNC_GROUPS w) (_ACTIVELY_PROCESSING w) d (events w).
Definition set_events (e : list event) (w : world) : world :=
  World (heap w) (mementos w) (_SYNC_GROUPS w) (_ACTIVELY_PROCESSING w) (disk w) e.

(** ** State and exception monad *)

Definition M (A : Type) : Type := world -> result A * world.

Definition ret {A} (a : A) : M A := fun w => (Ok a, w).
Definition raise {A} (e : exn) : M A := fun w => (Raise e, w).
Definition out_of_fuel {A} : M A := fun w => (OutOfFuel, w).

Definition bind {A B} (c : M A) (k : A -> M B) : M B :=
  fun w =>
    match c w with
    | (Ok a, w') => k a w'
    | (Raise e, w') => (Raise e, w')
    | (OutOfFuel, w') => (OutOfFuel, w')
    end.

Notation "'let*' x ':=' c 'in' k" := (bind c (fun x => k))
  (at level 10, x name, c at level 100, k at level 200).
Notation "c1 >> c2" := (bind c1 (fun _ => c2))
  (at level 63, right associativity).

Definition get_memento (self : nat) : M Memento :=
  fun w => (Ok (mementos w self), w).
Definition put_memento (self : nat) (m : Memento) : M unit :=
  fun w => (Ok tt, set_mementos (<[self := m]> (mementos w)) w).
Definition get_heap : M (gmap nat object) :=
  fun w => (Ok (heap w), w).
(** [Signal.emit] of a signal that has no slot to call. *)
Definition emit (e : event) : M unit :=
  fun w => (Ok tt, set_events (events w ++ [e]) w).
Definition lift {A} (r : result A) : M A := fun w => (r, w).

Fixpoint for_each {A} (l : list A) (body : A -> M unit) : M unit :=
  match l with
  | [] => ret tt
  | x :: l' => body x >> for_each l' body
  end.

(** ** Memento: registration *)

(** [register] for one getter, nothing being connected to [registered] (see
    [register_with]).  The label falls back to the getter, so it is a string
    only when a label was given or the getter is an attribute name; the
    duplicate test precedes the construction of the item, which refuses a
    label that is not a string. *)
Definition register (self : nat) (getter : accessor) (setter : option accessor)
    (label : option string) (copy_value : bool) : M unit :=
  let* m := get_memento self in
  let setter := py_or setter getter in
  let label := py_or (Attr <$> label) getter in
  let existing_labels := _ItemToRecord.label <$> _items_to_record m in
  if match label with
     | Attr s => bool_decide (s ∈ existing_labels)
     | Call _ => false
     end
  then raise RegistrationError
  else
    let* item := lift (_ItemToRecord.__init__ (_target m) label getter setter copy_value) in
    put_memento self (set_items (_items_to_record m ++ [item]) m) >>
    emit (Registered self).

(** [register] for a list: one call per element, in order.  An element is an
    argument tuple; a bare getter [g] is the tuple [(g, None, None, True)]. *)
Definition register_list (self : nat)
    (items : list (accessor * option accessor * option string * bool)) : M unit :=
  for_each items (fun '(getter, setter, label, copy_value) =>
    register self getter setter label copy_value).

Definition labels (m : Memento) : list string :=
  _ItemToRecord.label <$> _items_to_record m.

Definition count (m : Memento) : nat := length (_states m).

(** ** Memento: lock-step groups *)

(** The loop of [group] over [_SYNC_GROUPS]: the first group that holds
    [self] receives [other] unless it is there already; [None] when no group
    holds [self]. *)
Fixpoint group_loop (groups : list (list nat)) (self other : nat)
    : option (list (list nat)) :=
  match groups with
  | [] => None
  | g :: rest =>
      if bool_decide (self ∈ g)
      then Some ((if bool_decide (other ∈ g) then g else g ++ [other]) :: rest)
      else cons g <$> group_loop rest self other
  end.

Definition group (self other : nat) : M unit :=
  fun w =>
    match group_loop (_SYNC_GROUPS w) self other with
    | Some groups => (Ok tt, set_groups groups w)
    | None => (Ok tt, set_groups (_SYNC_GROUPS w ++ [[self; other]]) w)
    end.

Definition sync_group (self : nat) (w : world) : list nat :=
  match List.find (fun g => bool_decide (self ∈ g)) (_SYNC_GROUPS w) with
  | Some g => g
  | None => [self]
  end.

(** ** _SyncGroupPropogation *)

(** Python's [list.remove]: drops the first equal element, [None] (a
    [ValueError]) when there is none. *)
Fixpoint list_remove (x : nat) (l : list nat) : option (list nat) :=
  match l with
  | [] => None
  | y :: l' => if bool_decide (y = x) then Some l' else cons y <$> list_remove x l'
  end.

Module _SyncGroupPropogation.

(** Answers the list the [with] statement binds and the
    [_processing_in_context] list kept for [__exit__]. *)
Definition __enter__ (memento : nat) : M (list nat * list nat) :=
  fun w =>
    if bool_decide (memento ∈ _ACTIVELY_PROCESSING w)
    then (Ok ([], []), w)
    else
      let processing := sync_group memento w in
      (Ok (filter (fun m => m <> memento) processing, processing),
       set_active (_ACTIVELY_PROCESSING w ++ processing) w).

Definition remove_active (x : nat) : M unit :=
  fun w =>
    match list_remove x (_ACTIVELY_PROCESSING w) with
    | Some a => (Ok tt, set_active a w)
    | None => (Raise ValueError, w)
    end.

(** The [while] loop pops [_processing_in_context] from its end. *)
Definition __exit__ (processing : list nat) : M unit :=
  for_each (reverse processing) remove_active.

End _SyncGroupPropogation.

(** [with _SyncGroupPropogation(memento) as sync_group: body]: [__exit__]
    runs on every way out of the body and does not swallow its exception. *)
Definition with_sync_group (memento : nat) (body : list nat -> M unit) : M unit :=
  fun w =>
    match _SyncGroupPropogation.__enter__ memento w with
    | (Ok (sync_group, processing), w1) =>
        let '(r, w2) := body sync_group w1 in
        match _SyncGroupPropogation.__exit__ processing w2 with
        | (Ok _, w3) => (r, w3)
        | (Raise e, w3) => (Raise e, w3)
        | (OutOfFuel, w3) => (OutOfFuel, w3)
        end
    | (Raise e, w1) => (Raise e, w1)
    | (OutOfFuel, w1) => (OutOfFuel, w1)
    end.

(** ** Memento: store, restore, defer, omit *)

(** The loop [snapshot[item.label] = item.get()]. *)
Fixpoint take_snapshot (items : list _ItemToRecord.t) (h : gmap nat object)
    (snapshot : gmap string value) : result (gmap string value) :=
  match items with
  | [] => Ok snapshot
  | item :: rest =>
      match _ItemToRecord.get item h with
      | Ok v => take_snapshot rest h (<[_ItemToRecord.label item := v]> snapshot)
      | Raise e => Raise e
      | OutOfFuel => OutOfFuel
      end
  end.

(** [list.pop()] on a list that is not empty. *)
Definition pop {A} (l : list A) : list A := take (length l - 1) l.

(** [_states.insert(0, snapshot)] followed by the eviction test. *)
Definition push_state (max_states : Z) (snapshot : gmap string value)
    (states : list (gmap string value)) : list (gmap string value) :=
  let states' := snapshot :: states in
  if bool_decide (max_states <> 0%Z)
     && bool_decide (Z.of_nat (length states') > max_states)%Z
  then pop states'
  else states'.

(** Truth of [self._target()]: the dereferenced weak reference. *)
Definition target_truth (o : option object) : bool :=
  match o with
  | Some o => truth o
  | None => false
  end.

(** The persistence backend, seen through the contract of [SerialiserBase]:
    [serialise] keeps the snapshot under the identifier, [deserialise] answers
    what is kept.  The failures of a particular backend (a file that cannot
    be read or written) are not part of it. *)
Definition serialise (self : nat) : M unit :=
  let* m := get_memento self in
  if negb (_serialiser m) then raise Exception
  else
    match _states m with
    | latest :: _ =>
        fun w => (Ok tt, set_disk (<[_serialisation_identifier m := latest]> (disk w)) w)
    | [] => raise IndexError
    end.

(** [store], nothing being connected to [stored] (see [store_with]).  It
    calls itself on the peers, so it is defined by recursion on a bound on the
    depth of the calls; [store_total] shows that two are enough. *)
Fixpoint store (fuel : nat) (self : nat) (serialise_ : bool) : M unit :=
  match fuel with
  | O => out_of_fuel
  | S fuel' =>
      let* m := get_memento self in
      if _defer m then ret tt
      else
        let* h := get_heap in
        if negb (target_truth (h !! _target m)) then raise StorageError
        else
          let* snapshot := lift (take_snapshot (_items_to_record m) h ∅) in
          put_memento self
            (set_states (push_state (_max_states m) snapshot (_states m)) m) >>
          (if serialise_ || _always_serialise m then serialise self else ret tt) >>
          emit (Stored self) >>
          with_sync_group self (fun sync_group =>
            for_each sync_group (fun memento => store fuel' memento serialise_))
  end.

(** [self._states[index]] with Python's negative indices. *)
Definition py_index {A} (l : list A) (index : Z) : option A :=
  if bool_decide (0 <= index)%Z then l !! Z.to_nat index
  else if bool_decide (- Z.of_nat (length l) <= index)%Z
       then l !! Z.to_nat (Z.of_nat (length l) + index)
       else None.

Definition put_defer (self : nat) (b : bool) : M unit :=
  fun w => (Ok tt, set_mementos (<[self := set_defer b (mementos w self)]> (mementos w)) w).

(** A [contextmanager] generator: an exception of the body is thrown in at
    the [yield] and nothing after the [yield] runs. *)
Definition defer_with (store_ : nat -> bool -> M unit) (self : nat)
    (serialise_ : bool) (body : M unit) : M unit :=
  put_defer self true >>
  body >>
  put_defer self false >>
  store_ self serialise_.

Definition omit (self : nat) (body : M unit) : M unit :=
  put_defer self true >>
  body >>
  put_defer self false.

Definition restore_item (snapshot : gmap string value) (item : _ItemToRecord.t) : M unit :=
  match snapshot !! _ItemToRecord.label item with
  | None => raise KeyError
  | Some v =>
      fun w =>
        match _ItemToRecord.set item v (heap w) with
        | Ok h => (Ok tt, set_heap h w)
        | Raise e => (Raise e, w)
        | OutOfFuel => (OutOfFuel, w)
        end
  end.

(** The body of [with self.defer():] in [restore]; [restore_] is [restore]
    itself, for the peers. *)
Definition restore_window (restore_ : nat -> Z -> M unit) (self : nat)
    (index : Z) : M unit :=
  let* m := get_memento self in
  match py_index (_states m) index with
  | None => raise IndexError
  | Some snapshot =>
      for_each (_items_to_record m) (restore_item snapshot) >>
      with_sync_group self (fun sync_group =>
        for_each sync_group (fun memento => restore_ memento index))
  end.

(** [restore], nothing being connected to [stored] and [restored] (see
    [restore_with]); [restore_total] shows that a depth of three is enough. *)
Fixpoint restore (fuel : nat) (self : nat) (index : Z) : M unit :=
  match fuel with
  | O => out_of_fuel
  | S fuel' =>
      defer_with (store fuel') self false
        (restore_window (restore fuel') self index) >>
      emit (Restored self)
  end.

Definition defer (fuel : nat) (self : nat) (serialise_ : bool) (body : M unit) : M unit :=
  defer_with (store fuel) self serialise_ body.

(** ** Memento: persistence *)

(** The serialiser given is a subclass of [SerialiserBase] (any other is
    refused with a [TypeError]); which one it is does not matter here. *)
Definition register_serialiser (self : nat) (identifier : string)
    (always_serialise : bool) : M unit :=
  let* m := get_memento self in
  put_memento self (set_serialiser true identifier always_serialise m).

Definition unregister_serialiser (self : nat) : M unit :=
  let* m := get_memento self in
  put_memento self (set_serialiser false "" false m).

Definition deserialise (fuel : nat) (self : nat) : M unit :=
  let* m := get_memento self in
  if negb (_serialiser m) then raise Exception
  else
    fun w =>
      match disk w !! _serialisation_identifier m with
      | Some deserialisation =>
          if bool_decide (deserialisation <> ∅)
          then (put_memento self (set_states (deserialisation :: _states m) m) >>
                restore fuel self 0%Z) w
          else (Ok tt, w)
      | None => (Ok tt, w)
      end.

(** ** Memento: the methods with slots connected *)

(** The slots connected to the four signals of every tracker when a method
    is called: for each signal the slots that [Signal.emit] calls (those that
    are connected and true), in connection order.  A slot is any computation
    on the program state: it may raise, and it may call the tracker again. *)
Record connections : Type := Connections {
  registered : nat -> list (M unit);
  unregistered : nat -> list (M unit);
  stored : nat -> list (M unit);
  restored : nat -> list (M unit) }.

(** Nothing is connected to a signal of any tracker. *)
Definition no_slots (s : connections) : Prop :=
  forall p, registered s p = [] /\ unregistered s p = [] /\
            stored s p = [] /\ restored s p = [].

(** [Signal.emit]: the slots are called in order; the exception of a slot
    ends the emit and the method that emits. *)
Definition emit_to (slots : list (M unit)) (e : event) : M unit :=
  emit e >> for_each slots (fun slot => slot).

Definition register_with (s : connections) (self : nat) (getter : accessor)
    (setter : option accessor) (label : option string) (copy_value : bool) : M unit :=
  let* m := get_memento self in
  let setter := py_or setter getter in
  let label := py_or (Attr <$> label) getter in
  let existing_labels := _ItemToRecord.label <$> _items_to_record m in
  if match label with
     | Attr s => bool_decide (s ∈ existing_labels)
     | Call _ => false
     end
  then raise RegistrationError
  else
    let* item := lift (_ItemToRecord.__init__ (_target m) label getter setter copy_value) in
    put_memento self (set_items (_items_to_record m ++ [item]) m) >>
    emit_to (registered s self) (Registered self).

Definition register_list_with (s : connections) (self : nat)
    (items : list (accessor * option accessor * option string * bool)) : M unit :=
  for_each items (fun '(getter, setter, label, copy_value) =>
    register_with s self getter setter label copy_value).

(** [_items_to_record.remove(item)] for the item that
    [items_to_remove.pop()] answered, the last binding of the label when the
    call began.  Bindings have no [__eq__], so [remove] takes that very item
    away; here it is found by its label, which names one binding at most
    among those made by [register] ([register_keeps_labels_unique]).  [None]
    (a [ValueError]) is the answer when no binding of the label is left. *)
Fixpoint remove_last (label : string) (items : list _ItemToRecord.t)
    : option (list _ItemToRecord.t) :=
  match items with
  | [] => None
  | item :: rest =>
      match remove_last label rest with
      | Some rest' => Some (item :: rest')
      | None =>
          if bool_decide (_ItemToRecord.label item = label) then Some rest else None
      end
  end.

(** [unregister]: the loop runs once for every binding that had the label
    when the call began; each turn removes one and emits [unregistered]. *)
Definition unregister (s : connections) (self : nat) (label : string) : M unit :=
  let* m := get_memento self in
  let items_to_remove :=
    filter (fun item => _ItemToRecord.label item = label) (_items_to_record m) in
  for_each (reverse items_to_remove) (fun item =>
    let* m := get_memento self in
    match remove_last (_ItemToRecord.label item) (_items_to_record m) with
    | None => raise ValueError
    | Some items =>
        put_memento self (set_items items m) >>
        emit_to (unregistered s self) (Unregistered self)
    end).

(** [store] and [restore] as in [store] and [restore] above, each emit
    calling its slots. *)
Fixpoint store_with (s : connections) (fuel : nat) (self : nat) (serialise_ : bool)
    : M unit :=
  match fuel with
  | O => out_of_fuel
  | S fuel' =>
      let* m := get_memento self in
      if _defer m then ret tt
      else
        let* h := get_heap in
        if negb (target_truth (h !! _target m)) then raise StorageError
        else
          let* snapshot := lift (take_snapshot (_items_to_record m) h ∅) in
          put_memento self
            (set_states (push_state (_max_states m) snapshot (_states m)) m) >>
          (if serialise_ || _always_serialise m then serialise self else ret tt) >>
          emit_to (stored s self) (Stored self) >>
          with_sync_group self (fun sync_group =>
            for_each sync_group (fun memento => store_with s fuel' memento serialise_))
  end.

Fixpoint restore_with (s : connections) (fuel : nat) (self : nat) (index : Z) : M unit :=
  match fuel with
  | O => out_of_fuel
  | S fuel' =>
      defer_with (store_with s fuel') self false
        (restore_window (restore_with s fuel') self index) >>
      emit_to (restored s self) (Restored self)
  end.

(** ** Vocabulary of the statements *)

(** The steps of [store] between the deferral test and the propagation to
    the group: target check, snapshot, push and eviction, serialisation and
    the [stored] signal. *)
Definition store_steps (self : nat) (serialise_ : bool) : M unit :=
  let* m := get_memento self in
  if _defer m then ret tt
  else
    let* h := get_heap in
    if negb (target_truth (h !! _target m)) then raise StorageError
    else
      let* snapshot := lift (take_snapshot (_items_to_record m) h ∅) in
      put_memento self
        (set_states (push_state (_max_states m) snapshot (_states m)) m) >>
      (if serialise_ || _always_serialise m then serialise self else ret tt) >>
      emit (Stored self).

(** The last statement of [store]. *)
Definition propagate_store (fuel : nat) (self : nat) (serialise_ : bool) : M unit :=
  with_sync_group self (fun sync_group =>
    for_each sync_group (fun memento => store fuel memento serialise_)).

(** No group of [_SYNC_GROUPS] holds the tracker. *)
Definition ungrouped (self : nat) (w : world) : Prop :=
  Forall (fun g => self ∉ g) (_SYNC_GROUPS w).

(** The tracker is outside a deferred window, its target is alive and true,
    every getter answers, the cap is not negative and a serialiser is there if
    one is asked for: its own store completes. *)
Definition can_store (serialise_ : bool) (w : world) (p : nat) : Prop :=
  let m := mementos w p in
  _defer m = false /\
  target_truth (heap w !! _target m) = true /\
  (exists s, take_snapshot (_items_to_record m) (heap w) ∅ = Ok s) /\
  (0 <= _max_states m)%Z /\
  (serialise_ || _always_serialise m = true -> _serialiser m = true).

(** The snapshot a store of [p] takes in [w]. *)
Definition snapshot_of (w : world) (p : nat) : gmap string value :=
  match take_snapshot (_items_to_record (mementos w p)) (heap w) ∅ with
  | Ok s => s
  | _ => ∅
  end.

(** Between [w] and [w'] tracker [p] stored once and changed in nothing
    else. *)
Definition pushed (w w' : world) (p : nat) : Prop :=
  mementos w' p =
  set_states (push_state (_max_states (mementos w p)) (snapshot_of w p)
                (_states (mementos w p))) (mementos w p).

(** The history has room for one more snapshot; it is full. *)
Definition has_room (m : Memento) : Prop :=
  (_max_states m = 0 \/ Z.of_nat (count m) < _max_states m)%Z.
Definition is_full (m : Memento) : Prop :=
  (0 < _max_states m <= Z.of_nat (count m))%Z.

(** Every capped history is within its cap. *)
Definition capped (w : world) : Prop :=
  forall q, (0 < _max_states (mementos w q))%Z ->
            (Z.of_nat (count (mementos w q)) <= _max_states (mementos w q))%Z.

(** The caller between two stores: the live objects change at will. *)
Definition mutate (h : gmap nat object) : M unit :=
  fun w => (Ok tt, set_heap h w).

(** A sequence of stores on one tracker, the objects brought to [h] before
    each. *)
Fixpoint stores (fuel : nat) (self : nat) (steps : list (gmap nat object * bool))
    : M unit :=
  match steps with
  | [] => ret tt
  | (h, serialise_) :: rest =>
      mutate h >> store fuel self serialise_ >> stores fuel self rest
  end.


(** What a step of tracker [self] may change: its own history, the disk and
    the signals. *)
Record same_but (self : nat) (w w' : world) : Prop := {
  sb_heap : heap w' = heap w;
  sb_groups : _SYNC_GROUPS w' = _SYNC_GROUPS w;
  sb_active : _ACTIVELY_PROCESSING w' = _ACTIVELY_PROCESSING w;
  sb_others : forall p, p <> self -> mementos w' p = mementos w p;
  sb_defer : _defer (mementos w' self) = _defer (mementos w self);
  sb_target : _target (mementos w' self) = _target (mementos w self);
  sb_max : _max_states (mementos w' self) = _max_states (mementos w self);
  sb_items : _items_to_record (mementos w' self) = _items_to_record (mementos w self);
  sb_always : _always_serialise (mementos w' self) = _always_serialise (mementos w self);
  sb_serialiser : _serialiser (mementos w' self) = _serialiser (mementos w self);
  sb_ident : _serialisation_identifier (mementos w' self) =
             _serialisation_identifier (mementos w self) }.

(** What a call made for another tracker leaves alone. *)
Record untouched (self : nat) (w w' : world) : Prop := {
  un_self : mementos w' self = mementos w self;
  un_groups : _SYNC_GROUPS w' = _SYNC_GROUPS w;
  un_active : _ACTIVELY_PROCESSING w' = _ACTIVELY_PROCESSING w }.

Definition flags_same (w w' : world) : Prop :=
  forall q, _defer (mementos w' q) = _defer (mementos w q).

(** ** Exception handlers *)

(** [try: body / except <handled>: pass]: an exception of a handled class
    ends the statement normally, in the state the body left. *)
Definition try_except (handled : exn -> bool) (body : M unit) : M unit :=
  fun w =>
    match body w with
    | (Raise e, w') => if handled e then (Ok tt, w') else (Raise e, w')
    | rw => rw
    end.

(** ** Memento.serialise_after *)

(** The function the decorator puts in place of [func].  [memento_accessor]
    is what [getattr(args[0], memento_accessor)] answers: the tracker, or
    nothing (an [AttributeError]) when the instance has no such attribute. *)
Definition serialise_after {A} (fuel : nat) (memento_accessor : option nat)
    (func : M A) : M A :=
  let* result := func in
  try_except (fun e => bool_decide (e = AttributeError))
    (match memento_accessor with
     | Some memento => store fuel memento true
     | None => raise AttributeError
     end) >>
  ret result.

(** ** Signal *)

(** A signal keeps weak references to its slots, in connection order.  A
    slot is named by identity.  [disconnect] and [emit] test [possibility()]
    and [slot()], the truth of what the weak reference answers: [truthy] is
    true for a slot that has not been collected and whose truth value is true
    (a function or a bound method is true; an instance of a class with
    [__call__] and a false [__bool__] or [__len__] is not), and false for one
    that was collected or is false. *)
Module Signal.

(** [connect] answers [False] for an object that is not callable and nothing
    ([None]) after appending a callable. *)
Definition connect (callable_ : bool) (slot : nat) (_slots : list nat)
    : option bool * list nat :=
  if negb callable_ then (Some false, _slots)
  else (None, _slots ++ [slot]).

(** The loop [while callables_to_remove: _slots.remove(callables_to_remove.pop())];
    [list.remove] raises [ValueError] for an absent element. *)
Fixpoint remove_all (to_remove : list nat) (_slots : list nat) : result (list nat) :=
  match to_remove with
  | [] => Ok _slots
  | x :: rest =>
      match list_remove x _slots with
      | Some _slots' => remove_all rest _slots'
      | None => Raise ValueError
      end
  end.

Definition disconnect (truthy : nat -> bool) (slot : nat) (_slots : list nat)
    : result bool * list nat :=
  let callables_to_remove :=
    filter (fun possibility => truthy possibility = true /\ possibility = slot) _slots in
  match callables_to_remove with
  | [] => (Ok false, _slots)
  | _ =>
      match remove_all (reverse callables_to_remove) _slots with
      | Ok _slots' => (Ok true, _slots')
      | Raise e => (Raise e, _slots)
      | OutOfFuel => (OutOfFuel, _slots)
      end
  end.

(** The slots [emit] calls, in the order of the calls, as long as each call
    returns. *)
Definition emit (truthy : nat -> bool) (_slots : list nat) : list nat :=
  filter (fun slot => truthy slot = true) _slots.

End Signal.

(** ** Inference *)

Module Inference.

(** [self.__dict__[name] = value], then the store of the tracker when [name]
    is one of its labels.  [memento] is what [self.memento] answers: the
    tracker, or nothing (an [AttributeError]) while the instance has no such
    attribute.  The receiver of a call is alive. *)
Definition __setattr__ (fuel : nat) (self : nat) (memento : option nat)
    (name : string) (value_ : value) : M unit :=
  (fun w => (Ok tt, set_heap (alter (fun o => setattr o name value_) self (heap w)) w)) >>
  try_except (fun e => bool_decide (e = AttributeError) || bool_decide (e = StorageError))
    (match memento with
     | Some memento =>
         let* m := get_memento memento in
         if bool_decide (name ∈ labels m) then store fuel memento false else ret tt
     | None => raise AttributeError
     end).

End Inference.

(** ** Vocabulary of the further properties *)

(** A bare getter in a list given to [register]. *)
Definition bare (name : string) : accessor * option accessor * option string * bool :=
  (Attr name, None, None, true).

(** The first statements of the window of [restore]: the snapshot at the
    index is looked up and every binding is written from it. *)
Definition write_snapshot (self : nat) (index : Z) : M unit :=
  let* m := get_memento self in
  match py_index (_states m) index with
  | None => raise IndexError
  | Some snapshot => for_each (_items_to_record m) (restore_item snapshot)
  end.

(** The steps of [restore] on the tracker itself, without the propagation to
    the group: the window is opened, the bindings are written, the window is
    closed, the tracker stores and [restored] is emitted. *)
Definition restore_alone (self : nat) (index : Z) : M unit :=
  put_defer self true >>
  write_snapshot self index >>
  put_defer self false >>
  store_steps self false >>
  emit (Restored self).

(** The objects after the assignments [self.name = v] for [v] in [values],
    in order. *)
Definition assigned (self : nat) (name : string) (values : list value)
    (h : gmap nat object) : gmap nat object :=
  foldl (fun h v => alter (fun o => setattr o name v) self h) h values.

(** [getattr] on the objects, for an attribute of the instance dictionary. *)
Definition getattr (h : gmap nat object) (o : nat) (name : string) : option value :=
  match h !! o with
  | Some obj => attrs obj !! name
  | None => None
  end.

(** Every binding of the tracker is an attribute of the tracker's target,
    written by assignment. *)
Definition attribute_bindings (m : Memento) : Prop :=
  Forall (fun item => _ItemToRecord._target item = _target m /\
                      _ItemToRecord._set_is_callable item = false)
         (_items_to_record m).

(** Every binding of the tracker is read by attribute name. *)
Definition attribute_getters (m : Memento) : Prop :=
  Forall (fun item => _ItemToRecord._get_is_callable item = false)
         (_items_to_record m).

(** No getter and no setter of the tracker is a callable: every binding
    reads and writes an attribute of the tracker's target by name. *)
Definition attribute_accessors (m : Memento) : Prop :=
  attribute_bindings m /\ attribute_getters m.


(** ** Concrete objects and trackers *)

(** An object with one integer attribute [foo]. *)
Definition foo_object (n : Z) : object := Object (<["foo" := VInt n]> ∅) true.

(** Objects 0, 1 and 2, observed by the fresh trackers 0, 1 and 2. *)
Definition fresh_world (max_states : Z) : world :=
  World (<[0 := foo_object 1]> (<[1 := foo_object 1]> (<[2 := foo_object 1]> ∅)))
        (fun i => __init__ i max_states) [] [] ∅ [].

Definition set_foo (o : nat) (n : Z) : M unit :=
  fun w => (Ok tt, set_heap (<[o := foo_object n]> (heap w)) w).

Definition after {A} (c : M A) (w : world) : world := (c w).2.

(** The objects with [foo] of object 0 set to [n]. *)
Definition heap_foo (n : Z) : gmap nat object :=
  <[0 := foo_object n]> (<[1 := foo_object 1]> (<[2 := foo_object 1]> ∅)).

(** Tracker 0 with [foo] registered, unbounded history. *)
Definition one_binding : world :=
  after (register 0 (Attr "foo") None None true) (fresh_world 0).

(** Three stores, with [foo] at 10, 20 and 30. *)
Definition three_steps : list (gmap nat object * bool) :=
  [(heap_foo 10, false); (heap_foo 20, false); (heap_foo 30, false)].

(** Tracker 0 inside a deferred window. *)
Definition in_window : world := after (put_defer 0 true) one_binding.

(** Trackers 0 and 1, each with [foo] registered, after [0.group(1)]. *)
Definition two_grouped (max_states : Z) : world :=
  after (register 0 (Attr "foo") None None true >>
         register 1 (Attr "foo") None None true >>
         group 0 1) (fresh_world max_states).

(** The same after one store on tracker 0. *)
Definition with_history : world := after (store 2 0 false) (two_grouped 100).

(** Tracker 0 capped at one state, a serialiser registered, one store
    serialised. *)
Definition persisted : world :=
  after (register 0 (Attr "foo") None None true >>
         register_serialiser 0 "prefs" false >>
         store 2 0 true) (fresh_world 1).

(** [max_states = 5]; [foo] is set to 0..99, with a store after each. *)
Definition hundred_stores : M unit :=
  register 0 (Attr "foo") None None true >>
  for_each (seqZ 0 100) (fun i => set_foo 0 i >> store 2 0 false).

(** Object 0 is alive and false (say its class has [__len__] answer 0). *)
Definition falsy_target : world :=
  after (register 0 (Attr "foo") None None true)
    (set_heap (<[0 := Object (<["foo" := VInt 1]> ∅) false]> ∅) (fresh_world 100)).

Definition abc_object : object :=
  Object (<["a" := VInt 1]> (<["b" := VInt 2]> (<["c" := VInt 3]> ∅))) true.

(** [register(getter='a', setter='b', label='c')] on tracker 0. *)
Definition relabelled : world :=
  after (register 0 (Attr "a") (Some (Attr "b")) (Some "c") true)
    (set_heap (<[0 := abc_object]> ∅) (fresh_world 100)).

(** ** Concrete trackers of the further properties *)

(** Tracker 0 with [foo] registered, capped at two states. *)
Definition capped_binding : world :=
  after (register 0 (Attr "foo") None None true) (fresh_world 2).

(** Tracker 0 after the three stores. *)
Definition three_stored : world := after (stores 1 0 three_steps) one_binding.

(** [bar] is registered after a store: the snapshot has no entry for it. *)
Definition late_binding : world :=
  after (store 2 0 false >> register 0 (Attr "bar") None None true) one_binding.

(** Tracker 0 with [foo] and a serialiser registered, unbounded history. *)
Definition with_serialiser : world :=
  after (register_serialiser 0 "prefs" false) one_binding.

(** Slot 9 is false (or was collected); every other slot is true. *)
Definition all_but_nine (slot : nat) : bool := negb (bool_decide (slot = 9)).

(** No slot anywhere. *)
Definition quiet : connections :=
  Connections (fun _ => []) (fun _ => []) (fun _ => []) (fun _ => []).

(** [EventExceptingClass.raise_exception] of the tests, connected to [stored]
    on tracker 0. *)
Definition raise_exception : M unit := raise Exception.

Definition stored_raises : connections :=
  Connections (fun _ => []) (fun _ => [])
    (fun p => if bool_decide (p = 0) then [raise_exception] else []) (fun _ => []).




(** Tracker 0 has stored once and its target has become false since. *)
Definition falsy_since : world :=
  set_heap (<[0 := Object (<["foo" := VInt 1]> ∅) false]> ∅)
    (after (store 2 0 false) one_binding).

(** Unfolds the primitive computations of the monad. *)
Ltac unfold_monad :=
  unfold bind, ret, raise, lift, get_memento, get_heap, put_memento, emit.

(** ** Basic facts about the state and the monad *)

Lemma set_active_id w : set_active (_ACTIVELY_PROCESSING w) w = w.
Proof. by destruct w. Qed.

Lemma set_active_twice a b w : set_active a (set_active b w) = set_active a w.
Proof. by destruct w. Qed.

Lemma set_heap_twice h1 h2 w : set_heap h2 (set_heap h1 w) = set_heap h2 w.
Proof. by destruct w. Qed.

Lemma set_heap_id w : set_heap (heap w) w = w.
Proof. by destruct w. Qed.

Lemma memento_ext (m m' : Memento) :
  _defer m' = _defer m -> _target m' = _target m ->
  _states m' = _states m -> _max_states m' = _max_states m ->
  _items_to_record m' = _items_to_record m ->
  _serialiser m' = _serialiser m ->
  _serialisation_identifier m' = _serialisation_identifier m ->
  _always_serialise m' = _always_serialise m -> m' = m.
Proof. destruct m, m'; simpl; congruence. Qed.

(** A relation that holds across [c] and across [k] holds across [c >> k],
    whatever the outcome. *)
Lemma bind_inv {A B} (R : world -> world -> Prop) (c : M A) (k : A -> M B) w r w' :
  (forall x y z, R x y -> R y z -> R x z) ->
  (forall ra w1, c w = (ra, w1) -> R w w1) ->
  (forall a w1 rb w2, c w = (Ok a, w1) -> k a w1 = (rb, w2) -> R w1 w2) ->
  bind c k w = (r, w') -> R w w'.
Proof.
  intros HT Hc Hk. unfold bind. destruct (c w) as [[a|e|] w1] eqn:E.
  - intros H. eapply HT; [by eapply Hc|by eapply Hk].
  - intros [= <- <-]. by eapply Hc.
  - intros [= <- <-]. by eapply Hc.
Qed.

Lemma bind_fuel {A B} (c : M A) (k : A -> M B) w :
  (c w).1 <> OutOfFuel ->
  (forall a w1, c w = (Ok a, w1) -> (k a w1).1 <> OutOfFuel) ->
  (bind c k w).1 <> OutOfFuel.
Proof.
  intros Hc Hk. unfold bind. destruct (c w) as [[a|e|] w1] eqn:E; simpl in *; auto.
Qed.

Lemma for_each_frame {A} (R : world -> world -> Prop) (l : list A) (body : A -> M unit) :
  (forall w, R w w) ->
  (forall x y z, R x y -> R y z -> R x z) ->
  (forall x w r w', body x w = (r, w') -> R w w') ->
  forall w r w', for_each l body w = (r, w') -> R w w'.
Proof.
  intros Hrefl Htrans Hbody. induction l as [|x l IH]; intros w r w'.
  - by intros [= <- <-].
  - cbn [for_each]. apply bind_inv; [done|apply Hbody|].
    intros [] w1 rb w2 _. apply IH.
Qed.

Lemma for_each_fuel {A} (I : world -> Prop) (l : list A) (body : A -> M unit) :
  (forall x w, x ∈ l -> I w -> (body x w).1 <> OutOfFuel) ->
  (forall x w r w', x ∈ l -> I w -> body x w = (r, w') -> I w') ->
  forall w, I w -> (for_each l body w).1 <> OutOfFuel.
Proof.
  induction l as [|x l IH]; intros Hf Hi w Hw; [done|].
  cbn [for_each]. apply bind_fuel.
  - apply Hf; [constructor|done].
  - intros [] w1 E. apply IH.
    + intros y w2 Hy. apply Hf. by constructor.
    + intros y w2 r2 w3 Hy. apply Hi. by constructor.
    + eapply Hi; [constructor|done|exact E].
Qed.

(** ** The history list *)

Lemma pop_cons {A} (x : A) (l : list A) : pop (x :: l) = take (length l) (x :: l).
Proof. unfold pop. simpl. by rewrite Nat.sub_0_r. Qed.

(** With room, or without a cap, the snapshot is put in front and nothing
    leaves. *)
Lemma push_state_room M s l :
  (M = 0 \/ Z.of_nat (length l) < M)%Z -> push_state M s l = s :: l.
Proof.
  intros H. unfold push_state. simpl length.
  destruct (bool_decide (M <> 0%Z)) eqn:E1; [|done].
  rewrite bool_decide_eq_false_2; [done|].
  apply bool_decide_eq_true in E1. lia.
Qed.

(** On a full history the snapshot is put in front and exactly one entry,
    the last and oldest, leaves. *)
Lemma push_state_full M s l :
  (0 < M <= Z.of_nat (length l))%Z ->
  push_state M s l = s :: take (length l - 1) l.
Proof.
  intros H. unfold push_state. simpl length.
  rewrite bool_decide_eq_true_2 by lia.
  rewrite bool_decide_eq_true_2 by lia. simpl.
  rewrite pop_cons. destruct l as [|x l]; [simpl in H; lia|].
  simpl. by rewrite Nat.sub_0_r.
Qed.

Lemma push_state_head M s l :
  (0 <= M)%Z -> exists rest, push_state M s l = s :: rest.
Proof.
  intros H.
  destruct (decide (M = 0 \/ Z.of_nat (length l) < M)%Z) as [Hr|Hr].
  - exists l. by apply push_state_room.
  - exists (take (length l - 1) l). apply push_state_full. lia.
Qed.

Lemma push_state_length_room M s l :
  (M = 0 \/ Z.of_nat (length l) < M)%Z -> length (push_state M s l) = S (length l).
Proof. intros H. by rewrite push_state_room. Qed.

Lemma push_state_length_full M s l :
  (0 < M <= Z.of_nat (length l))%Z -> length (push_state M s l) = length l.
Proof.
  intros H. rewrite push_state_full by done. simpl. rewrite length_take. lia.
Qed.

Lemma push_state_bounded M s l :
  (0 < M)%Z -> (Z.of_nat (length l) <= M)%Z ->
  (Z.of_nat (length (push_state M s l)) <= M)%Z.
Proof.
  intros HM Hl. destruct (decide (Z.of_nat (length l) < M)%Z).
  - rewrite push_state_length_room by auto. lia.
  - rewrite push_state_length_full by lia. lia.
Qed.

Lemma py_index_nat {A} (l : list A) (k : nat) : py_index l (Z.of_nat k) = l !! k.
Proof.
  unfold py_index. rewrite bool_decide_eq_true_2 by lia. by rewrite Nat2Z.id.
Qed.

Lemma py_index_beyond {A} (l : list A) (index : Z) :
  (Z.of_nat (length l) <= index)%Z -> py_index l index = None.
Proof.
  intros H. unfold py_index. rewrite bool_decide_eq_true_2 by lia.
  apply lookup_ge_None. lia.
Qed.

(** ** Bindings and snapshots *)

Lemma get_fuel item h : _ItemToRecord.get item h <> OutOfFuel.
Proof.
  unfold _ItemToRecord.get. destruct (_ItemToRecord._getter item) as [name|[f|g]]; try done.
  destruct (h !! _); [|done]. by destruct (attrs _ !! _).
Qed.

Lemma set_fuel item v h : _ItemToRecord.set item v h <> OutOfFuel.
Proof.
  unfold _ItemToRecord.set. destruct (_ItemToRecord._setter item) as [name|[f|g]]; try done.
  by destruct (h !! _).
Qed.

Lemma take_snapshot_fuel items h : forall acc, take_snapshot items h acc <> OutOfFuel.
Proof.
  induction items as [|item items IH]; intros acc; [done|]. simpl.
  pose proof (get_fuel item h). destruct (_ItemToRecord.get item h); try done.
Qed.

Lemma get_errors item h e :
  _ItemToRecord.get item h = Raise e -> e = AttributeError \/ e = TypeError.
Proof.
  unfold _ItemToRecord.get. destruct (_ItemToRecord._getter item) as [name|[f|g]].
  - destruct (h !! _) as [o|]; [|intros [= <-]; by left].
    destruct (attrs o !! name); [done|intros [= <-]; by left].
  - done.
  - intros [= <-]. by right.
Qed.

Lemma take_snapshot_errors items h e : forall acc,
  take_snapshot items h acc = Raise e -> e = AttributeError \/ e = TypeError.
Proof.
  induction items as [|item items IH]; intros acc; [done|]. simpl.
  destruct (_ItemToRecord.get item h) as [v|e'|] eqn:E; [apply IH| |done].
  intros [= <-]. by apply get_errors in E.
Qed.

(** A setter that is an attribute name is not looked at: the attribute
    assigned is the one the label names. *)
Lemma set_attr_assigns_label item name v h o :
  _ItemToRecord._setter item = Attr name ->
  h !! _ItemToRecord._target item = Some o ->
  _ItemToRecord.set item v h =
  Ok (<[_ItemToRecord._target item := setattr o (_ItemToRecord.label item) v]> h).
Proof. intros Hs Ho. unfold _ItemToRecord.set. by rewrite Hs, Ho. Qed.

Lemma setattr_other o l v name :
  name <> l -> attrs (setattr o l v) !! name = attrs o !! name.
Proof. intros H. simpl. by apply lookup_insert_ne. Qed.

(** With distinct labels a snapshot holds, under each label, what the getter of
    that binding read. *)
Lemma take_snapshot_lookup items : forall h acc snap,
  take_snapshot items h acc = Ok snap ->
  NoDup (_ItemToRecord.label <$> items) ->
  (forall item, item ∈ items ->
     exists v, _ItemToRecord.get item h = Ok v /\
               snap !! _ItemToRecord.label item = Some v) /\
  (forall l, l ∉ (_ItemToRecord.label <$> items) -> snap !! l = acc !! l).
Proof.
  induction items as [|item items IH]; intros h acc snap.
  - intros [= <-] _. split; [|done]. intros item H. by apply elem_of_nil in H.
  - cbn [take_snapshot]. destruct (_ItemToRecord.get item h) as [v| |] eqn:Hg; [|done|done].
    intros Hs Hnd. rewrite fmap_cons in Hnd.
    pose proof (NoDup_cons_1_1 _ _ Hnd) as Hfresh. apply NoDup_cons_1_2 in Hnd.
    destruct (IH _ _ _ Hs Hnd) as [Hin Hout]. split.
    + intros it Hit. apply elem_of_cons in Hit as [->|Hit]; [|by apply Hin].
      exists v. split; [done|]. rewrite Hout by done. apply lookup_insert_eq.
    + intros l Hl. rewrite fmap_cons in Hl. apply not_elem_of_cons in Hl as [Hne Hl].
      rewrite Hout by done. by apply lookup_insert_ne.
Qed.

Lemma restore_items_heap snap items : forall w r w',
  for_each items (restore_item snap) w = (r, w') ->
  exists h, w' = set_heap h w.
Proof.
  induction items as [|item items IH]; intros w r w'.
  - intros [= <- <-]. exists (heap w). by rewrite set_heap_id.
  - cbn [for_each]. unfold bind, restore_item at 1.
    destruct (snap !! _); [|intros [= <- <-]; exists (heap w); by rewrite set_heap_id].
    destruct (_ItemToRecord.set _ _ _) as [h1| |];
      try (intros [= <- <-]; exists (heap w); by rewrite set_heap_id).
    intros H. apply IH in H as [h ->]. exists h. by rewrite set_heap_twice.
Qed.

Lemma restore_items_fuel snap items : forall w,
  (for_each items (restore_item snap) w).1 <> OutOfFuel.
Proof.
  intros w. apply (for_each_fuel (fun _ => True)); auto.
  intros item w0 _ _. unfold restore_item. destruct (snap !! _); [|done].
  pose proof (set_fuel item v (heap w0)).
  by destruct (_ItemToRecord.set item v (heap w0)).
Qed.

(** ** The group table and the propagation guard *)

Lemma sync_group_ungrouped self w : ungrouped self w -> sync_group self w = [self].
Proof.
  unfold ungrouped, sync_group. induction 1 as [|g gs Hg _ IH]; simpl; [done|].
  by rewrite bool_decide_eq_false_2.
Qed.

Lemma sync_group_same self w w' :
  _SYNC_GROUPS w' = _SYNC_GROUPS w -> sync_group self w' = sync_group self w.
Proof. unfold sync_group. by intros ->. Qed.

Lemma sync_group_self self w : self ∈ sync_group self w.
Proof.
  unfold sync_group. destruct (find _ _) as [g|] eqn:E.
  - apply find_some in E as [_ E]. by apply bool_decide_eq_true in E.
  - constructor.
Qed.

Lemma ungrouped_same self w w' :
  _SYNC_GROUPS w' = _SYNC_GROUPS w -> ungrouped self w -> ungrouped self w'.
Proof. unfold ungrouped. by intros ->. Qed.

Lemma group_loop_ungrouped groups self other :
  Forall (fun g => self ∉ g) groups -> group_loop groups self other = None.
Proof.
  induction 1 as [|g gs Hg _ IH]; simpl; [done|].
  by rewrite bool_decide_eq_false_2, IH.
Qed.

(** A tracker that is in no group opens a new one, whatever groups the other
    tracker is in. *)
Lemma group_ungrouped self other w :
  ungrouped self w ->
  group self other w = (Ok tt, set_groups (_SYNC_GROUPS w ++ [[self; other]]) w).
Proof. intros H. unfold group. by rewrite group_loop_ungrouped. Qed.

Lemma list_remove_app x a g :
  x ∉ a -> x ∈ g ->
  exists g1, list_remove x (a ++ g) = Some (a ++ g1) /\ g ≡ₚ x :: g1.
Proof.
  intros Ha Hg. induction a as [|y a IH]; simpl.
  - clear Ha. induction g as [|y g IH]; [by apply elem_of_nil in Hg|].
    simpl. case_bool_decide as Hy.
    + subst. by exists g.
    + apply elem_of_cons in Hg as [->|Hg]; [done|].
      destruct (IH Hg) as (g1 & -> & Hp). exists (y :: g1). split; [done|].
      rewrite Hp. apply Permutation_swap.
  - apply not_elem_of_cons in Ha as [Hne Ha].
    rewrite bool_decide_eq_false_2 by done.
    destruct (IH Ha) as (g1 & -> & Hp). by exists g1.
Qed.

Lemma exit_loop xs : forall a g w,
  xs ≡ₚ g -> (forall x, x ∈ g -> x ∉ a) ->
  _ACTIVELY_PROCESSING w = a ++ g ->
  for_each xs _SyncGroupPropogation.remove_active w = (Ok tt, set_active a w).
Proof.
  induction xs as [|x xs IH]; intros a g w Hp Hd Hw.
  - apply Permutation_nil_l in Hp. subst g. rewrite app_nil_r in Hw.
    simpl. unfold ret. by rewrite <- Hw, set_active_id.
  - assert (Hx : x ∈ g) by (rewrite <- Hp; apply elem_of_cons; auto).
    destruct (list_remove_app x a g (Hd x Hx) Hx) as (g1 & Hr & Hp1).
    simpl. unfold bind at 1. unfold _SyncGroupPropogation.remove_active at 1.
    rewrite Hw, Hr.
    rewrite (IH a g1 (set_active (a ++ g1) w)).
    + by rewrite set_active_twice.
    + apply (Permutation_cons_inv (a:=x)). by rewrite Hp, Hp1.
    + intros y Hy. apply Hd. rewrite Hp1. apply elem_of_cons; auto.
    + by destruct w.
Qed.

(** [__exit__] removes what [__enter__] added. *)
Lemma exit_spec g a w :
  (forall x, x ∈ g -> x ∉ a) ->
  _ACTIVELY_PROCESSING w = a ++ g ->
  _SyncGroupPropogation.__exit__ g w = (Ok tt, set_active a w).
Proof.
  intros. unfold _SyncGroupPropogation.__exit__.
  apply exit_loop with (g := g); auto. apply reverse_Permutation.
Qed.

Lemma exit_active g : forall w r w',
  for_each g _SyncGroupPropogation.remove_active w = (r, w') ->
  exists a, w' = set_active a w.
Proof.
  induction g as [|x g IH]; intros w r w'.
  - intros [= <- <-]. exists (_ACTIVELY_PROCESSING w). by rewrite set_active_id.
  - cbn [for_each]. unfold bind, _SyncGroupPropogation.remove_active at 1.
    destruct (list_remove _ _);
      [|intros [= <- <-]; exists (_ACTIVELY_PROCESSING w); by rewrite set_active_id].
    intros H. apply IH in H as [a ->]. exists a. by rewrite set_active_twice.
Qed.

Lemma exit_fuel g w : (_SyncGroupPropogation.__exit__ g w).1 <> OutOfFuel.
Proof.
  unfold _SyncGroupPropogation.__exit__.
  apply (for_each_fuel (fun _ => True)); auto.
  intros x w0 _ _. unfold _SyncGroupPropogation.remove_active.
  by destruct (list_remove _ _).
Qed.

(** A tracker that is being processed gets no peer. *)
Lemma with_sync_group_active memento body w :
  memento ∈ _ACTIVELY_PROCESSING w ->
  with_sync_group memento body w = body [] w.
Proof.
  intros H. unfold with_sync_group, _SyncGroupPropogation.__enter__.
  rewrite bool_decide_eq_true_2 by done.
  destruct (body [] w) as [r w2]. simpl. by destruct r.
Qed.

Lemma with_sync_group_ungrouped self (f : nat -> M unit) w :
  ungrouped self w ->
  with_sync_group self (fun sync_group => for_each sync_group f) w = (Ok tt, w).
Proof.
  intros Hu. destruct (decide (self ∈ _ACTIVELY_PROCESSING w)) as [Hin|Hin].
  - by rewrite with_sync_group_active.
  - unfold with_sync_group, _SyncGroupPropogation.__enter__.
    rewrite bool_decide_eq_false_2 by done.
    rewrite sync_group_ungrouped by done.
    rewrite filter_cons_False, filter_nil by (intros H; by apply H).
    cbn [for_each]. unfold ret.
    rewrite (exit_spec [self] (_ACTIVELY_PROCESSING w)).
    + by rewrite set_active_twice, set_active_id.
    + intros x Hx. apply list_elem_of_singleton in Hx. by subst.
    + done.
Qed.

(** The peers [__enter__] answers are being processed from then on. *)
Lemma enter_peers memento w peers ctx w1 :
  _SyncGroupPropogation.__enter__ memento w = (Ok (peers, ctx), w1) ->
  forall p, p ∈ peers -> p ∈ _ACTIVELY_PROCESSING w1 /\ p <> memento.
Proof.
  unfold _SyncGroupPropogation.__enter__. case_bool_decide.
  - intros [= <- _ _] p Hp. by apply elem_of_nil in Hp.
  - intros [= <- _ <-] p Hp. apply list_elem_of_filter in Hp as [Hne Hp].
    split; [|done]. simpl. apply elem_of_app. by right.
Qed.

Lemma with_sync_group_fuel memento body w :
  (forall peers ctx w1,
     _SyncGroupPropogation.__enter__ memento w = (Ok (peers, ctx), w1) ->
     (body peers w1).1 <> OutOfFuel) ->
  (with_sync_group memento body w).1 <> OutOfFuel.
Proof.
  intros Hbody. unfold with_sync_group.
  destruct (_SyncGroupPropogation.__enter__ memento w) as [[[peers ctx]|e|] w1] eqn:Een;
    try (revert Een; unfold _SyncGroupPropogation.__enter__; by destruct (bool_decide _)).
  specialize (Hbody peers ctx w1 eq_refl).
  destruct (body peers w1) as [r2 w2].
  pose proof (exit_fuel ctx w2) as Hx.
  destruct (_SyncGroupPropogation.__exit__ ctx w2) as [[[]|e|] w3]; simpl in *; done.
Qed.

(** ** One tracker's own store *)

Lemma same_but_refl self w : same_but self w w.
Proof. by split. Qed.

Lemma same_but_trans self w1 w2 w3 :
  same_but self w1 w2 -> same_but self w2 w3 -> same_but self w1 w3.
Proof.
  intros [] []. split; try congruence.
  intros p Hp. rewrite sb_others1, sb_others0; auto.
Qed.

Lemma put_memento_frame self m0 m w r w' :
  mementos w self = m0 ->
  _defer m = _defer m0 -> _target m = _target m0 ->
  _max_states m = _max_states m0 ->
  _items_to_record m = _items_to_record m0 ->
  _always_serialise m = _always_serialise m0 ->
  _serialiser m = _serialiser m0 ->
  _serialisation_identifier m = _serialisation_identifier m0 ->
  put_memento self m w = (r, w') -> same_but self w w'.
Proof.
  intros <- ? ? ? ? ? ? ? [= <- <-]. split; simpl; rewrite ?fn_lookup_insert; try done.
  intros p Hp. by rewrite fn_lookup_insert_ne.
Qed.

Lemma emit_frame self e w r w' : emit e w = (r, w') -> same_but self w w'.
Proof. intros [= <- <-]. by split. Qed.

Lemma serialise_frame self p w r w' : serialise p w = (r, w') -> same_but self w w'.
Proof.
  unfold serialise, bind, get_memento, raise.
  destruct (negb _); [intros [= <- <-]; by split|].
  destruct (_states _); intros [= <- <-]; by split.
Qed.

(** [store] is the deferral test, the steps of the tracker, then the
    propagation. *)
Lemma store_unfold fuel self ser w :
  store (S fuel) self ser w =
  if _defer (mementos w self) then (Ok tt, w)
  else (store_steps self ser >> propagate_store fuel self ser) w.
Proof.
  unfold propagate_store, store_steps. simpl. unfold bind, get_memento, ret, get_heap, raise, lift.
  destruct (_defer (mementos w self)); [done|].
  destruct (negb _); [done|].
  destruct (take_snapshot _ _ _); try done.
  unfold put_memento.
  destruct (_ || _); [|done].
  by destruct (serialise self _) as [[]].
Qed.

Lemma store_steps_frame self ser w r w' :
  store_steps self ser w = (r, w') -> same_but self w w'.
Proof.
  unfold store_steps. unfold bind at 1, get_memento at 1.
  destruct (_defer (mementos w self)) eqn:Hd; [intros [= <- <-]; apply same_but_refl|].
  unfold bind at 1, get_heap at 1.
  destruct (negb _); [intros [= <- <-]; apply same_but_refl|].
  unfold bind at 1, lift at 1.
  destruct (take_snapshot _ _ _) as [snap| |]; try (intros [= <- <-]; apply same_but_refl).
  apply bind_inv; [apply same_but_trans| |].
  - intros ra w1. by apply put_memento_frame with (m0 := mementos w self).
  - intros [] w1 rb w2 _. apply bind_inv; [apply same_but_trans| |].
    + intros ra w3. destruct (_ || _); [apply serialise_frame|intros [= <- <-]; apply same_but_refl].
    + intros [] w3 rc w4 _. apply emit_frame.
Qed.

Lemma store_steps_fuel self ser w : (store_steps self ser w).1 <> OutOfFuel.
Proof.
  unfold store_steps. unfold_monad.
  destruct (_defer _); [done|]. destruct (negb _); [done|].
  pose proof (take_snapshot_fuel (_items_to_record (mementos w self)) (heap w) ∅).
  destruct (take_snapshot _ _ _); try done.
  destruct (_ || _); [|done].
  unfold serialise, bind, get_memento, raise.
  destruct (negb _); [done|]. by destruct (_states _).
Qed.

(** Outside a deferred window the steps of a tracker raise [StorageError]
    exactly when the truth value of the dereferenced target is false: when
    the target is gone, and also when it is alive and false. *)
Lemma storage_error_iff self ser w :
  _defer (mementos w self) = false ->
  (store_steps self ser w).1 = Raise StorageError <->
  target_truth (heap w !! _target (mementos w self)) = false.
Proof.
  intros Hd. unfold store_steps. unfold_monad. rewrite Hd.
  destruct (target_truth _); simpl; [|done]. split; [|done].
  destruct (take_snapshot _ _ _) as [s|e|] eqn:E; simpl.
  - destruct (_ || _); [|done].
    unfold serialise. unfold_monad. simpl. rewrite fn_lookup_insert. simpl.
    destruct (negb _); [done|]. by destruct (push_state _ _ _).
  - intros [= ->]. apply take_snapshot_errors in E as [?|?]; done.
  - done.
Qed.

Lemma store_steps_ok ser w p :
  can_store ser w p ->
  exists w',
    store_steps p ser w = (Ok tt, w') /\
    same_but p w w' /\
    _states (mementos w' p) =
      push_state (_max_states (mementos w p)) (snapshot_of w p) (_states (mementos w p)) /\
    events w' = events w ++ [Stored p].
Proof.
  intros (Hd & Ht & [s Hs] & HM & Hser).
  destruct (store_steps p ser w) as [r w'] eqn:E.
  pose proof (store_steps_frame _ _ _ _ _ E) as HF.
  exists w'. revert E HF. unfold store_steps, snapshot_of. unfold_monad.
  rewrite Hd, Ht, Hs. simpl.
  destruct (ser || _always_serialise (mementos w p)) eqn:Eser.
  - unfold serialise, bind, get_memento, raise. simpl.
    rewrite fn_lookup_insert. simpl. rewrite Hser by done. simpl.
    destruct (push_state_head (_max_states (mementos w p)) s (_states (mementos w p)) HM)
      as [rest Hrest]. rewrite Hrest.
    intros [= <- <-] HF. split; [done|]. split; [done|]. simpl.
    by rewrite fn_lookup_insert.
  - intros [= <- <-] HF. split; [done|]. split; [done|]. simpl.
    by rewrite fn_lookup_insert.
Qed.

Lemma store_steps_pushed ser w p :
  can_store ser w p ->
  exists w',
    store_steps p ser w = (Ok tt, w') /\
    same_but p w w' /\ pushed w w' p /\
    events w' = events w ++ [Stored p].
Proof.
  intros H. destruct (store_steps_ok ser w p H) as (w' & E & HF & Hs & He).
  exists w'. split; [done|]. split; [done|]. split; [|done].
  unfold pushed. destruct HF. by apply memento_ext.
Qed.

Lemma pushed_states w w' p :
  pushed w w' p ->
  _states (mementos w' p) =
  push_state (_max_states (mementos w p)) (snapshot_of w p) (_states (mementos w p)).
Proof. unfold pushed. by intros ->. Qed.

Lemma store_steps_inv self ser w w' :
  store_steps self ser w = (Ok tt, w') ->
  _defer (mementos w self) = false ->
  exists s,
    take_snapshot (_items_to_record (mementos w self)) (heap w) ∅ = Ok s /\
    target_truth (heap w !! _target (mementos w self)) = true /\
    _states (mementos w' self) =
      push_state (_max_states (mementos w self)) s (_states (mementos w self)).
Proof.
  intros E Hd. revert E. unfold store_steps. unfold_monad.
  rewrite Hd. destruct (target_truth _) eqn:Ht; [|done]. simpl.
  destruct (take_snapshot _ _ _) as [s| |] eqn:Hs; [|done|done].
  destruct (_ || _).
  - unfold serialise, bind, get_memento, raise. simpl.
    rewrite fn_lookup_insert. simpl.
    destruct (negb _); [done|].
    destruct (push_state _ _ _) eqn:Hp; [done|].
    intros [= <-]. exists s. simpl. by rewrite fn_lookup_insert.
  - intros [= <-]. exists s. simpl. by rewrite fn_lookup_insert.
Qed.

Lemma store_steps_states self ser w r w' :
  store_steps self ser w = (r, w') ->
  _states (mementos w' self) = _states (mementos w self) \/
  exists s, _states (mementos w' self) =
            push_state (_max_states (mementos w self)) s (_states (mementos w self)).
Proof.
  unfold store_steps. unfold_monad.
  destruct (_defer _); [intros [= <- <-]; by left|].
  destruct (negb _); [intros [= <- <-]; by left|].
  destruct (take_snapshot _ _ _) as [s| |]; try (intros [= <- <-]; by left).
  destruct (_ || _).
  - unfold serialise, bind, get_memento, raise. simpl. rewrite fn_lookup_insert. simpl.
    destruct (negb _); [intros [= <- <-]; right; exists s; simpl; by rewrite fn_lookup_insert|].
    destruct (push_state _ _ _) eqn:E;
      intros [= <- <-]; right; exists s; simpl; by rewrite fn_lookup_insert, E.
  - intros [= <- <-]. right. exists s. simpl. by rewrite fn_lookup_insert.
Qed.

Lemma can_store_same ser w w' p :
  heap w' = heap w -> mementos w' p = mementos w p ->
  can_store ser w p -> can_store ser w' p.
Proof. unfold can_store. by intros -> ->. Qed.

Lemma snapshot_of_same w w' p :
  heap w' = heap w -> mementos w' p = mementos w p ->
  snapshot_of w' p = snapshot_of w p.
Proof. unfold snapshot_of. by intros -> ->. Qed.

(** For a tracker that is being processed [store] is its own steps and
    nothing more. *)
Lemma store_in_active fuel self ser w :
  self ∈ _ACTIVELY_PROCESSING w ->
  store (S fuel) self ser w = store_steps self ser w.
Proof.
  intros H. rewrite store_unfold.
  destruct (_defer (mementos w self)) eqn:Hd.
  - unfold store_steps, bind, get_memento. by rewrite Hd.
  - unfold bind. destruct (store_steps self ser w) as [[[]|e|] w1] eqn:E; try done.
    apply store_steps_frame with (self := self) in E.
    unfold propagate_store. rewrite with_sync_group_active; [done|].
    by rewrite (sb_active _ _ _ E).
Qed.

Lemma store_ungrouped fuel self ser w :
  ungrouped self w ->
  store (S fuel) self ser w = store_steps self ser w.
Proof.
  intros H. rewrite store_unfold.
  destruct (_defer (mementos w self)) eqn:Hd.
  - unfold store_steps, bind, get_memento. by rewrite Hd.
  - unfold bind. destruct (store_steps self ser w) as [[[]|e|] w1] eqn:E; try done.
    apply store_steps_frame with (self := self) in E.
    unfold propagate_store. rewrite with_sync_group_ungrouped; [done|].
    apply (ungrouped_same self w); [apply E|done].
Qed.

(** ** Calls made for the peers *)

Lemma untouched_refl self w : untouched self w w.
Proof. by split. Qed.

Lemma untouched_trans self w1 w2 w3 :
  untouched self w1 w2 -> untouched self w2 w3 -> untouched self w1 w3.
Proof. intros [] []. split; congruence. Qed.

Lemma same_but_untouched self p w w' :
  p <> self -> same_but p w w' -> untouched self w w'.
Proof. intros Hne []. split; auto. Qed.

Lemma restore_unfold fuel p index :
  restore (S fuel) p index =
  (defer_with (store fuel) p false (restore_window (restore fuel) p index) >>
   emit (Restored p)).
Proof. reflexivity. Qed.

(** [restore] on a tracker that is being processed leaves the other trackers,
    the groups and the guard alone. *)
Lemma restore_in_active self fuel p index w r w' :
  p ∈ _ACTIVELY_PROCESSING w -> p <> self ->
  restore fuel p index w = (r, w') -> untouched self w w'.
Proof.
  intros Hact Hne. destruct fuel as [|fuel]; [intros [= <- <-]; apply untouched_refl|].
  cbn [restore]. apply bind_inv; [apply untouched_trans| |].
  - intros ra w1. unfold defer_with. apply bind_inv; [apply untouched_trans| |].
    + intros ? ? [= <- <-]. split; simpl; try done. by rewrite fn_lookup_insert_ne.
    + intros [] w2 rb w3 [= <-]. apply bind_inv; [apply untouched_trans| |].
      * intros rc w4. unfold restore_window. unfold bind at 1, get_memento at 1.
        destruct (py_index _ _); [|intros [= <- <-]; apply untouched_refl].
        apply bind_inv; [apply untouched_trans| |].
        -- intros rd w5 H. apply restore_items_heap in H as [h ->]. by split.
        -- intros [] w5 rd w6 H. apply restore_items_heap in H as [h ->].
           rewrite with_sync_group_active by done.
           intros [= <- <-]. apply untouched_refl.
      * intros [] w4 rc w5 Hw. apply bind_inv; [apply untouched_trans| |].
        -- intros ? ? [= <- <-]. split; simpl; try done. by rewrite fn_lookup_insert_ne.
        -- intros [] w6 rd w7 [= <-].
           assert (Hin : p ∈ _ACTIVELY_PROCESSING w4).
           { revert Hw. unfold restore_window. unfold bind at 1, get_memento at 1.
             destruct (py_index _ _); [|by intros [= <-]].
             unfold bind. destruct (for_each _ _ _) as [[[]| |] w8] eqn:E; try done.
             apply restore_items_heap in E as [h ->].
             rewrite with_sync_group_active by done. by intros [= <-]. }
           destruct fuel as [|fuel]; [intros [= <- <-]; apply untouched_refl|].
           rewrite store_in_active by done.
           intros H. apply store_steps_frame in H.
           by apply (same_but_untouched self p).
  - intros [] w1 rb w2 _ [= <- <-]. by split.
Qed.

Lemma restore_in_active_keeps fuel p index w r w' :
  p ∈ _ACTIVELY_PROCESSING w ->
  restore fuel p index w = (r, w') ->
  _ACTIVELY_PROCESSING w' = _ACTIVELY_PROCESSING w.
Proof.
  intros Hin E. apply (restore_in_active (S p)) in E; [apply E|done|lia].
Qed.

Lemma peers_store_any fuel ser self peers : forall w r w',
  (forall p, p ∈ peers -> p ∈ _ACTIVELY_PROCESSING w /\ p <> self) ->
  for_each peers (fun p => store (S fuel) p ser) w = (r, w') ->
  untouched self w w' /\ r <> OutOfFuel.
Proof.
  induction peers as [|p peers IH]; intros w r w' Hp.
  - intros [= <- <-]. split; [apply untouched_refl|done].
  - cbn [for_each]. unfold bind.
    destruct (Hp p) as [Hin Hne]; [constructor|].
    rewrite store_in_active by done.
    pose proof (store_steps_fuel p ser w) as Hf.
    destruct (store_steps p ser w) as [r1 w1] eqn:E.
    pose proof (same_but_untouched self p _ _ Hne (store_steps_frame _ _ _ _ _ E)) as HU.
    destruct r1 as [[]|e|]; [|by intros [= <- <-]|done].
    intros H. apply IH in H as [HU' Hr].
    + split; [by eapply untouched_trans|done].
    + intros q Hq. rewrite (un_active _ _ _ HU). apply Hp. by constructor.
Qed.

Lemma peers_restore_any fuel index self peers : forall w r w',
  (forall p, p ∈ peers -> p ∈ _ACTIVELY_PROCESSING w /\ p <> self) ->
  for_each peers (fun p => restore fuel p index) w = (r, w') ->
  untouched self w w'.
Proof.
  induction peers as [|p peers IH]; intros w r w' Hp.
  - intros [= <- <-]. apply untouched_refl.
  - cbn [for_each]. unfold bind.
    destruct (Hp p) as [Hin Hne]; [constructor|].
    destruct (restore fuel p index w) as [r1 w1] eqn:E.
    pose proof (restore_in_active self _ _ _ _ _ _ Hin Hne E) as HU.
    destruct r1 as [[]|e|]; [|by intros [= <- <-]|by intros [= <- <-]].
    intros H. apply IH in H.
    + by eapply untouched_trans.
    + intros q Hq. rewrite (un_active _ _ _ HU). apply Hp. by constructor.
Qed.

(** The loop over the peers stores each of them once. *)
Lemma peers_store fuel ser peers : forall w,
  NoDup peers ->
  (forall p, p ∈ peers -> p ∈ _ACTIVELY_PROCESSING w) ->
  (forall p, p ∈ peers -> can_store ser w p) ->
  exists w',
    for_each peers (fun p => store (S fuel) p ser) w = (Ok tt, w') /\
    heap w' = heap w /\
    _SYNC_GROUPS w' = _SYNC_GROUPS w /\
    _ACTIVELY_PROCESSING w' = _ACTIVELY_PROCESSING w /\
    (forall p, p ∈ peers -> pushed w w' p) /\
    (forall p, p ∉ peers -> mementos w' p = mementos w p) /\
    events w' = events w ++ (Stored <$> peers).
Proof.
  induction peers as [|p peers IH]; intros w Hnd Hact Hcan.
  - exists w. simpl. rewrite app_nil_r. repeat split; try done.
    intros p Hp. by apply elem_of_nil in Hp.
  - pose proof (NoDup_cons_1_1 _ _ Hnd) as Hp. apply NoDup_cons_1_2 in Hnd.
    destruct (store_steps_pushed ser w p) as (w1 & E1 & HF & Hpush & Hev).
    { apply Hcan. constructor. }
    destruct (IH w1 Hnd) as (w' & E & Hh & Hg & Ha & Hps & Hot & Hev').
    { intros q Hq. rewrite (sb_active _ _ _ HF). apply Hact. by constructor. }
    { intros q Hq. apply (can_store_same ser w); [apply HF| |apply Hcan; by constructor].
      apply (sb_others _ _ _ HF). by intros ->. }
    exists w'. cbn [for_each]. unfold bind at 1.
    rewrite store_in_active by (apply Hact; constructor). rewrite E1, E.
    split; [done|].
    split; [by rewrite Hh, (sb_heap _ _ _ HF)|].
    split; [by rewrite Hg, (sb_groups _ _ _ HF)|].
    split; [by rewrite Ha, (sb_active _ _ _ HF)|].
    split; [|split].
    + intros q Hq. apply elem_of_cons in Hq as [->|Hq].
      * unfold pushed. by rewrite Hot.
      * assert (q <> p) by (by intros ->).
        specialize (Hps q Hq). unfold pushed in *. rewrite Hps.
        rewrite (snapshot_of_same w w1 q), (sb_others _ _ _ HF) by
          (try apply HF; try done; by apply (sb_others _ _ _ HF)).
        done.
    + intros q Hq. apply not_elem_of_cons in Hq as [Hne Hq].
      rewrite Hot by done. by apply (sb_others _ _ _ HF).
    + rewrite Hev', Hev. by rewrite <- app_assoc.
Qed.

(** One [store] from outside stores every member of the group once: the
    caller first, then its peers in the order of the group. *)
Lemma group_store fuel ser w A :
  _ACTIVELY_PROCESSING w = [] ->
  NoDup (sync_group A w) ->
  (forall p, p ∈ sync_group A w -> can_store ser w p) ->
  exists w',
    store (S (S fuel)) A ser w = (Ok tt, w') /\
    heap w' = heap w /\
    _SYNC_GROUPS w' = _SYNC_GROUPS w /\
    _ACTIVELY_PROCESSING w' = [] /\
    (forall p, p ∈ sync_group A w -> pushed w w' p) /\
    (forall p, p ∉ sync_group A w -> mementos w' p = mementos w p) /\
    events w' =
      events w ++ Stored A :: (Stored <$> filter (fun m => m <> A) (sync_group A w)).
Proof.
  intros Hact Hnd Hcan. set (g := sync_group A w) in *.
  assert (HA : A ∈ g) by apply sync_group_self.
  destruct (store_steps_pushed ser w A (Hcan A HA)) as (w1 & E1 & HF & Hpush & Hev).
  rewrite store_unfold.
  destruct (Hcan A HA) as (-> & _).
  unfold bind. rewrite E1.
  unfold propagate_store, with_sync_group, _SyncGroupPropogation.__enter__.
  rewrite (sb_active _ _ _ HF), Hact.
  rewrite bool_decide_eq_false_2 by apply not_elem_of_nil.
  rewrite (sync_group_same A w w1) by apply HF. fold g. simpl app.
  set (peers := filter (fun m => m <> A) g).
  destruct (peers_store fuel ser peers (set_active g w1)) as
    (w2 & E2 & Hh & Hg & Ha & Hps & Hot & Hev2).
  { by apply list.NoDup_filter. }
  { intros p Hp. simpl. by apply list_elem_of_filter in Hp as [_ Hp]. }
  { intros p Hp. apply list_elem_of_filter in Hp as [Hne Hp].
    apply (can_store_same ser w); [apply HF| |by apply Hcan].
    simpl. by apply (sb_others _ _ _ HF). }
  rewrite E2.
  rewrite (exit_spec g [] w2); [|intros; apply not_elem_of_nil|by rewrite Ha].
  exists (set_active [] w2). split; [done|]. simpl.
  split; [by rewrite Hh; simpl; apply HF|].
  split; [by rewrite Hg; simpl; apply HF|].
  split; [done|]. split; [|split].
  - intros p Hp. destruct (decide (p = A)) as [->|Hne].
    + unfold pushed. simpl. rewrite Hot; [done|].
      intros H. by apply list_elem_of_filter in H as [H _].
    + assert (Hpp : p ∈ peers) by (by apply list_elem_of_filter).
      specialize (Hps p Hpp). unfold pushed in *. simpl. rewrite Hps. simpl.
      assert (Hm : mementos w1 p = mementos w p) by (by apply (sb_others _ _ _ HF)).
      rewrite (snapshot_of_same w (set_active g w1) p), Hm; [done| |done].
      simpl. apply HF.
  - intros p Hp. simpl. rewrite Hot.
    + simpl. apply (sb_others _ _ _ HF). by intros ->.
    + intros H. by apply list_elem_of_filter in H as [_ H].
  - rewrite Hev2. simpl. rewrite Hev. by rewrite <- app_assoc.
Qed.

(** Whatever the group and whatever happens to the peers, the caller's own
    history receives exactly one snapshot. *)
Lemma store_top_self fuel ser self w :
  _ACTIVELY_PROCESSING w = [] ->
  can_store ser w self ->
  exists r w',
    store (S (S fuel)) self ser w = (r, w') /\
    r <> OutOfFuel /\
    pushed w w' self /\
    _ACTIVELY_PROCESSING w' = [].
Proof.
  intros Hact Hcan.
  destruct (store_steps_pushed ser w self Hcan) as (w1 & E1 & HF & Hpush & _).
  rewrite store_unfold. destruct Hcan as (-> & _).
  unfold bind. rewrite E1.
  unfold propagate_store, with_sync_group, _SyncGroupPropogation.__enter__.
  rewrite (sb_active _ _ _ HF), Hact.
  rewrite bool_decide_eq_false_2 by apply not_elem_of_nil. simpl app.
  set (g := sync_group self w1).
  destruct (for_each _ _ (set_active g w1)) as [r w2] eqn:E2.
  apply (peers_store_any fuel ser self) in E2 as [HU Hr].
  2:{ intros p Hp. apply list_elem_of_filter in Hp as [Hne Hp]. by split. }
  rewrite (exit_spec g [] w2);
    [|intros; apply not_elem_of_nil|by rewrite (un_active _ _ _ HU)].
  exists r, (set_active [] w2). split; [done|]. split; [done|]. split; [|done].
  unfold pushed. simpl. by rewrite (un_self _ _ _ HU).
Qed.

(** The body of the deferred window of [restore] never touches the caller's
    own tracker state. *)
Lemma window_self fuel self index w r w' :
  restore_window (restore fuel) self index w = (r, w') ->
  mementos w' self = mementos w self.
Proof.
  unfold restore_window. unfold bind at 1, get_memento at 1.
  destruct (py_index _ _) as [snap|]; [|by intros [= <- <-]].
  unfold bind. destruct (for_each _ _ w) as [r1 w1] eqn:E.
  apply restore_items_heap in E as [h ->].
  destruct r1 as [[]|e|]; [|by intros [= <- <-]|by intros [= <- <-]].
  destruct (decide (self ∈ _ACTIVELY_PROCESSING (set_heap h w))) as [Hin|Hin].
  - rewrite with_sync_group_active by done. by intros [= <- <-].
  - unfold with_sync_group, _SyncGroupPropogation.__enter__.
    rewrite bool_decide_eq_false_2 by done.
    set (g := sync_group self (set_heap h w)).
    destruct (for_each _ _ (set_active _ _)) as [r2 w2] eqn:E2.
    apply (peers_restore_any fuel index self) in E2.
    2:{ intros p Hp. apply list_elem_of_filter in Hp as [Hne Hp]. split; [|done].
        simpl. apply elem_of_app. by right. }
    unfold _SyncGroupPropogation.__exit__.
    destruct (for_each _ _ w2) as [r3 w3] eqn:E3.
    apply exit_active in E3 as [a ->].
    assert (mementos (set_active a w2) self = mementos w self)
      by (simpl; by rewrite (un_self _ _ _ E2)).
    destruct r3 as [[]|e|]; by intros [= <- <-].
Qed.

(** ** Properties kept by every store and restore *)

(** A relation between states that is a preorder and ignores the guard list
    holds across [store] once it holds across the steps of one tracker, and
    across [restore] once it also ignores the deferral flag, the objects and
    the signals. *)
Section Frames.

Variable R : world -> world -> Prop.
Hypothesis R_refl : forall w, R w w.
Hypothesis R_trans : forall x y z, R x y -> R y z -> R x z.
Hypothesis R_active : forall a w, R w (set_active a w).

Lemma with_sync_group_frame memento body w r w' :
  (forall peers w r w', body peers w = (r, w') -> R w w') ->
  with_sync_group memento body w = (r, w') -> R w w'.
Proof.
  intros Hbody. unfold with_sync_group.
  destruct (_SyncGroupPropogation.__enter__ memento w) as [[[peers ctx]|e|] w1] eqn:Een;
    try (revert Een; unfold _SyncGroupPropogation.__enter__; by destruct (bool_decide _)).
  assert (H1 : R w w1).
  { revert Een. unfold _SyncGroupPropogation.__enter__.
    destruct (bool_decide _); intros [= _ _ <-]; auto. }
  destruct (body peers w1) as [r2 w2] eqn:E2. apply Hbody in E2.
  destruct (_SyncGroupPropogation.__exit__ ctx w2) as [r3 w3] eqn:E3.
  apply exit_active in E3 as [a ->].
  assert (R w (set_active a w2)) by eauto.
  destruct r3 as [[]|e|]; by intros [= <- <-].
Qed.

Hypothesis R_steps : forall p ser w r w', store_steps p ser w = (r, w') -> R w w'.

Lemma store_frame fuel : forall p ser w r w',
  store fuel p ser w = (r, w') -> R w w'.
Proof.
  induction fuel as [|fuel IH]; intros p ser w r w'; [by intros [= <- <-]|].
  rewrite store_unfold. destruct (_defer (mementos w p)); [by intros [= <- <-]|].
  apply bind_inv; [done|apply R_steps|].
  intros [] w1 rb w2 _. apply with_sync_group_frame.
  intros peers w3 r3 w4. apply for_each_frame; auto.
  intros x ? ? ?. apply IH.
Qed.

Hypothesis R_defer : forall p b w, R w (put_defer p b w).2.
Hypothesis R_heap : forall h w, R w (set_heap h w).
Hypothesis R_emit : forall e w, R w (emit e w).2.

Lemma restore_frame fuel : forall p index w r w',
  restore fuel p index w = (r, w') -> R w w'.
Proof.
  induction fuel as [|fuel IH]; intros p index w r w'; [by intros [= <- <-]|].
  cbn [restore]. apply bind_inv; [done| |].
  - intros ra w1. unfold defer_with. apply bind_inv; [done| |].
    + intros ? ? [= <- <-]. apply (R_defer p true w).
    + intros [] w2 rb w3 _. apply bind_inv; [done| |].
      * intros rc w4. unfold restore_window. unfold bind at 1, get_memento at 1.
        destruct (py_index _ _); [|by intros [= <- <-]].
        apply bind_inv; [done| |].
        -- intros rd w5 H. apply restore_items_heap in H as [h ->]. apply R_heap.
        -- intros [] w5 rd w6 _. apply with_sync_group_frame.
           intros peers w7 r7 w8. apply for_each_frame; auto.
           intros x ? ? ?. apply IH.
      * intros [] w4 rc w5 _. apply bind_inv; [done| |].
        -- intros ? ? [= <- <-]. apply (R_defer p false w4).
        -- intros [] w6 rd w7 _. apply store_frame.
  - intros [] w1 rb w2 _ [= <- <-]. apply (R_emit (Restored p) w1).
Qed.

End Frames.

(** [store] never changes a deferral flag. *)
Lemma store_flags fuel p ser w r w' :
  store fuel p ser w = (r, w') -> flags_same w w'.
Proof.
  apply (store_frame flags_same); try done.
  - intros x y z H1 H2 q. by rewrite H2, H1.
  - intros p' ser' w0 r0 w0' H q. apply store_steps_frame in H.
    destruct (decide (q = p')) as [->|Hne]; [apply H|]. by rewrite (sb_others _ _ _ H).
Qed.

Lemma store_steps_capped p ser w r w' :
  store_steps p ser w = (r, w') -> capped w -> capped w'.
Proof.
  intros E Hc q. pose proof (store_steps_frame _ _ _ _ _ E) as HF.
  destruct (decide (q = p)) as [->|Hne].
  - rewrite (sb_max _ _ _ HF). intros HM. specialize (Hc p HM). unfold count in *.
    destruct (store_steps_states _ _ _ _ _ E) as [->|[s ->]]; [done|].
    by apply push_state_bounded.
  - rewrite (sb_others _ _ _ HF) by done. apply Hc.
Qed.

(** Histories within their cap stay within it across [store] and [restore]. *)
Lemma store_capped fuel p ser w r w' :
  store fuel p ser w = (r, w') -> capped w -> capped w'.
Proof.
  apply (store_frame (fun w w' => capped w -> capped w')); auto.
  intros. eapply store_steps_capped; eauto.
Qed.

Lemma put_defer_capped p b w : capped w -> capped (put_defer p b w).2.
Proof.
  intros Hc q. simpl. destruct (decide (q = p)) as [->|Hne].
  - rewrite fn_lookup_insert. apply Hc.
  - rewrite fn_lookup_insert_ne by done. apply Hc.
Qed.

Lemma restore_capped fuel p index w r w' :
  restore fuel p index w = (r, w') -> capped w -> capped w'.
Proof.
  apply (restore_frame (fun w w' => capped w -> capped w')); auto.
  - intros. eapply store_steps_capped; eauto.
  - intros. by apply put_defer_capped.
Qed.

(** ** Enough fuel *)

(** The recursion of [store] is at most two calls deep and that of
    [restore] three. *)
Lemma store_total fuel p ser w : (store (S (S fuel)) p ser w).1 <> OutOfFuel.
Proof.
  rewrite store_unfold. destruct (_defer _); [done|].
  apply bind_fuel; [apply store_steps_fuel|].
  intros [] w1 _. apply with_sync_group_fuel. intros peers ctx w2 Hen.
  destruct (for_each peers _ w2) as [r w3] eqn:E.
  apply (peers_store_any fuel ser p) in E as [_ Hr]; [done|].
  by apply (enter_peers p w1 peers ctx).
Qed.

Lemma restore_in_active_total fuel p index w :
  p ∈ _ACTIVELY_PROCESSING w ->
  (restore (S (S fuel)) p index w).1 <> OutOfFuel.
Proof.
  intros Hin. rewrite restore_unfold. apply bind_fuel; [|done].
  unfold defer_with. apply bind_fuel; [done|].
  intros [] w1 [= <-]. apply bind_fuel.
  - unfold restore_window. apply bind_fuel; [done|]. intros m w2 [= <- <-].
    destruct (py_index _ _); [|done].
    apply bind_fuel; [apply restore_items_fuel|].
    intros [] w3 E. apply restore_items_heap in E as [h ->].
    by rewrite with_sync_group_active.
  - intros [] w2 E. apply bind_fuel; [done|]. intros [] w3 [= <-].
    assert (Hin2 : p ∈ _ACTIVELY_PROCESSING w2).
    { revert E. unfold restore_window. unfold bind at 1, get_memento at 1.
      destruct (py_index _ _); [|done].
      unfold bind. destruct (for_each _ _ _) as [[[]| |] w8] eqn:E; try done.
      apply restore_items_heap in E as [h ->].
      rewrite with_sync_group_active by done. by intros [= <-]. }
    rewrite store_in_active by done. apply store_steps_fuel.
Qed.

Lemma restore_total fuel p index w :
  (restore (S (S (S fuel))) p index w).1 <> OutOfFuel.
Proof.
  rewrite restore_unfold. apply bind_fuel; [|done].
  unfold defer_with. apply bind_fuel; [done|].
  intros [] w1 _. apply bind_fuel.
  - unfold restore_window. apply bind_fuel; [done|]. intros m w2 [= <- <-].
    destruct (py_index _ _); [|done].
    apply bind_fuel; [apply restore_items_fuel|].
    intros [] w3 _. apply with_sync_group_fuel. intros peers ctx w4 Hen.
    apply (for_each_fuel (fun w => forall q, q ∈ peers -> q ∈ _ACTIVELY_PROCESSING w)).
    + intros q w5 Hq Hw5. apply restore_in_active_total. by apply Hw5.
    + intros q w5 r w6 Hq Hw5 E q' Hq'.
      rewrite (restore_in_active_keeps _ _ _ _ _ _ (Hw5 q Hq) E). by apply Hw5.
    + intros q Hq. by apply (enter_peers _ _ _ _ _ Hen).
  - intros [] w2 _. apply bind_fuel; [done|]. intros [] w3 _. apply store_total.
Qed.

(** ** Registration and histories *)

(** [register] keeps the labels distinct. *)
Lemma register_keeps_labels_unique self getter setter label copy_value w w' :
  register self getter setter label copy_value w = (Ok tt, w') ->
  NoDup (labels (mementos w self)) ->
  NoDup (labels (mementos w' self)).
Proof.
  unfold register. unfold_monad.
  destruct (py_or (Attr <$> label) getter) as [s|c] eqn:Hl; simpl; [|done].
  case_bool_decide as Hin; [done|].
  intros [= <-] Hnd. simpl. rewrite fn_lookup_insert. unfold labels. simpl.
  rewrite fmap_app. apply list.NoDup_app. split; [done|]. split.
  - intros x Hx Hx'. apply list_elem_of_singleton in Hx'. by subst.
  - apply NoDup_singleton.
Qed.

(** The bindings of a tracker are on the target of the tracker. *)
Lemma register_keeps_item_targets self getter setter label copy_value w w' :
  register self getter setter label copy_value w = (Ok tt, w') ->
  Forall (fun item => _ItemToRecord._target item = _target (mementos w self))
         (_items_to_record (mementos w self)) ->
  Forall (fun item => _ItemToRecord._target item = _target (mementos w' self))
         (_items_to_record (mementos w' self)).
Proof.
  unfold register. unfold_monad.
  destruct (py_or (Attr <$> label) getter) as [s|c] eqn:Hl; simpl; [|done].
  case_bool_decide as Hin; [done|].
  intros [= <-] Hall. simpl. rewrite fn_lookup_insert. simpl.
  apply Forall_app. split; [done|]. by constructor.
Qed.


Lemma restore_out_of_range restore_ self index w :
  py_index (_states (mementos w self)) index = None ->
  restore_window restore_ self index (put_defer self true w).2 =
  (Raise IndexError, (put_defer self true w).2).
Proof.
  intros H. unfold restore_window, bind, get_memento. simpl.
  rewrite fn_lookup_insert. simpl. by rewrite H.
Qed.

(** The scenario of the specification: [count() == 5] and the values held at
    indices 0..4 are 99, 98, 97, 96, 95. *)
Lemma max_states_scenario :
  (hundred_stores (fresh_world 5)).1 = Ok tt /\
  count (mementos (after hundred_stores (fresh_world 5)) 0) = 5 /\
  (fun s : gmap string value => s !! "foo")
    <$> _states (mementos (after hundred_stores (fresh_world 5)) 0) =
  [Some (VInt 99); Some (VInt 98); Some (VInt 97); Some (VInt 96); Some (VInt 95)].
Proof. vm_compute. repeat split. Qed.

(** ** Nothing connected: the two forms of a method agree *)

Lemma emit_to_nil e w : emit_to [] e w = emit e w.
Proof. reflexivity. Qed.

Lemma for_each_ext {A} (l : list A) (f g : A -> M unit) :
  (forall x w, f x w = g x w) -> forall w, for_each l f w = for_each l g w.
Proof.
  intros H. induction l as [|x l IH]; intros w; [done|].
  cbn [for_each]. unfold bind. rewrite H.
  destruct (g x w) as [[[]|e|] w1]; [apply IH|done|done].
Qed.

Lemma with_sync_group_ext memento (f g : list nat -> M unit) :
  (forall l w, f l w = g l w) ->
  forall w, with_sync_group memento f w = with_sync_group memento g w.
Proof.
  intros H w. unfold with_sync_group.
  destruct (_SyncGroupPropogation.__enter__ memento w) as [[[l p]|e|] w1]; [|done|done].
  by rewrite H.
Qed.

Lemma register_with_eq s self getter setter label copy_value w :
  no_slots s ->
  register_with s self getter setter label copy_value w =
  register self getter setter label copy_value w.
Proof.
  intros Hs. unfold register_with, register.
  destruct (Hs self) as (-> & _). reflexivity.
Qed.

Lemma register_list_with_eq s self items w :
  no_slots s -> register_list_with s self items w = register_list self items w.
Proof.
  intros Hs. unfold register_list_with, register_list. apply for_each_ext.
  intros [[[g st] l] c] w1. by apply register_with_eq.
Qed.

Lemma store_with_eq s : no_slots s ->
  forall fuel self ser w, store_with s fuel self ser w = store fuel self ser w.
Proof.
  intros Hs. induction fuel as [|fuel IH]; intros self ser w; [done|].
  cbn [store_with store]. destruct (Hs self) as (_ & _ & -> & _).
  unfold emit_to. cbn [for_each].
  unfold bind, get_memento, get_heap, lift, put_memento, ret, raise.
  destruct (_defer (mementos w self)); [done|].
  destruct (negb _); [done|].
  destruct (take_snapshot _ _ _) as [snap|e|]; [|done|done].
  match goal with |- context [(if ?b then serialise self else _) ?x] =>
    destruct ((if b then serialise self else (fun w => (Ok tt, w))) x) as [[[]|e|] w1] end;
    [|done|done].
  unfold emit. apply with_sync_group_ext. intros l w2.
  apply for_each_ext. intros p w3. apply IH.
Qed.

Lemma restore_with_eq s : no_slots s ->
  forall fuel self index w, restore_with s fuel self index w = restore fuel self index w.
Proof.
  intros Hs. induction fuel as [|fuel IH]; intros self index w; [done|].
  cbn [restore_with restore]. destruct (Hs self) as (_ & _ & _ & ->).
  unfold bind.
  assert (E : defer_with (store_with s fuel) self false
                (restore_window (restore_with s fuel) self index) w =
              defer_with (store fuel) self false
                (restore_window (restore fuel) self index) w).
  { unfold defer_with, bind. destruct (put_defer self true w) as [[[]|e|] w1]; [|done|done].
    assert (Ew : restore_window (restore_with s fuel) self index w1 =
                 restore_window (restore fuel) self index w1).
    { unfold restore_window, bind. destruct (get_memento self w1) as [[m|e|] w2]; [|done|done].
      destruct (py_index _ _); [|done].
      destruct (for_each _ _ w2) as [[[]|e|] w3]; [|done|done].
      apply with_sync_group_ext. intros l w4. apply for_each_ext. intros p w5. apply IH. }
    rewrite Ew. clear Ew.
    destruct (restore_window (restore fuel) self index w1) as [[[]|e|] w2]; [|done|done].
    destruct (put_defer self false w2) as [[[]|e|] w3]; [|done|done].
    by apply store_with_eq. }
  rewrite E. destruct (defer_with _ _ _ _ _) as [[[]|e|] w1]; [|done|done].
  reflexivity.
Qed.


Lemma no_slots_quiet : no_slots quiet.
Proof. by intros p. Qed.

Lemma restore_window_with_eq s fuel self index w :
  no_slots s ->
  restore_window (restore_with s fuel) self index w =
  restore_window (restore fuel) self index w.
Proof.
  intros Hs. unfold restore_window, bind.
  destruct (get_memento self w) as [[m|e|] w2]; [|done|done].
  destruct (py_index _ _); [|done].
  destruct (for_each _ _ w2) as [[[]|e|] w3]; [|done|done].
  apply with_sync_group_ext. intros l w4. apply for_each_ext. intros p w5.
  by apply restore_with_eq.
Qed.

(** [store] with slots: the steps of the tracker, the calls of the slots of
    [stored], the propagation. *)
Lemma store_with_unfold s fuel self ser w :
  store_with s (S fuel) self ser w =
  if _defer (mementos w self) then (Ok tt, w)
  else (store_steps self ser >>
        for_each (stored s self) (fun slot => slot) >>
        with_sync_group self (fun sync_group =>
          for_each sync_group (fun memento => store_with s fuel memento ser))) w.
Proof.
  unfold store_steps. cbn [store_with]. unfold emit_to.
  unfold bind, get_memento, ret, get_heap, raise, lift, put_memento.
  destruct (_defer (mementos w self)); [done|].
  destruct (negb _); [done|].
  destruct (take_snapshot _ _ _); try done.
  match goal with |- context [(if ?b then serialise self else _) ?x] =>
    destruct ((if b then serialise self else (fun w => (Ok tt, w))) x) as [[[]|e|] w1] end;
    [|done|done].
  unfold emit. by destruct (for_each (stored s self) _ _) as [[[]|e|] w2].
Qed.

(** * The claims *)

(** C2. The length of the history does not stay within [max_states] at all
    times: on a tracker capped at one state whose history holds one state,
    [deserialise] inserts the loaded snapshot without evicting, the store that
    ends its [restore] evicts one entry only, and [count()] is 2 from then
    on. *)
Theorem deserialise_exceeds_max_states :
  _max_states (mementos persisted 0) = 1%Z /\
  count (mementos persisted 0) = 1 /\
  (deserialise 3 0 persisted).1 = Ok tt /\
  _max_states (mementos (after (deserialise 3 0) persisted) 0) = 1%Z /\
  count (mementos (after (deserialise 3 0) persisted) 0) = 2 /\
  count (mementos (after (deserialise 3 0 >> store 2 0 false) persisted) 0) = 2.
Proof. vm_compute. repeat split. Qed.

(** C3. A peer stores twice during one [restore] from outside: with trackers 0
    and 1 grouped, [restore(0)] on tracker 0 makes tracker 1 store when it
    leaves its own deferred window and once more when tracker 0 leaves its
    window, the guard having been released in between.  The history of
    tracker 0 grows by one entry, that of tracker 1 by two. *)
Theorem group_restore_stores_peer_twice :
  sync_group 0 with_history = [0; 1] /\
  _ACTIVELY_PROCESSING with_history = [] /\
  (restore 5 0 0 with_history).1 = Ok tt /\
  events (after (restore 5 0 0) with_history) =
    events with_history ++ [Stored 1; Restored 1; Stored 0; Stored 1; Restored 0] /\
  count (mementos with_history 0) = 1 /\
  count (mementos with_history 1) = 1 /\
  count (mementos (after (restore 5 0 0) with_history) 0) = 2 /\
  count (mementos (after (restore 5 0 0) with_history) 1) = 3.
Proof. vm_compute. repeat split. Qed.

(** C4, as stated, fails on full histories: both trackers are capped at one
    state and hold one, and a store on tracker 0 leaves both lengths at 1. *)
Lemma group_store_full_history :
  sync_group 0 (after (store 2 0 false) (two_grouped 1)) = [0; 1] /\
  (store 2 0 false (after (store 2 0 false) (two_grouped 1))).1 = Ok tt /\
  count (mementos (after (store 2 0 false >> store 2 0 false) (two_grouped 1)) 0)
    <> S (count (mementos (after (store 2 0 false) (two_grouped 1)) 0)) /\
  count (mementos (after (store 2 0 false >> store 2 0 false) (two_grouped 1)) 1)
    <> S (count (mementos (after (store 2 0 false) (two_grouped 1)) 1)).
Proof. vm_compute. repeat split; discriminate. Qed.

(** C4, amended. Nothing is connected to the signals, no propagation is in
    flight, the group of [A] has no duplicate, and every member reads its
    bindings by attribute name and can store (see [can_store]).  Then one
    [store] on [A] from outside returns and performs exactly one store on
    each member (one [stored] signal each, [A] first): on [A] and on [B] the
    snapshot is pushed once, the length of the history grows by exactly 1
    where there is room and stays the same where the history is full. *)
Theorem group_store_once s fuel ser w A B :
  no_slots s ->
  _ACTIVELY_PROCESSING w = [] ->
  B ∈ sync_group A w ->
  NoDup (sync_group A w) ->
  (forall p, p ∈ sync_group A w ->
     can_store ser w p /\ attribute_getters (mementos w p)) ->
  exists w',
    store_with s (S (S fuel)) A ser w = (Ok tt, w') /\
    events w' =
      events w ++ Stored A :: (Stored <$> filter (fun m => m <> A) (sync_group A w)) /\
    forall p, p = A \/ p = B ->
      pushed w w' p /\
      (has_room (mementos w p) -> count (mementos w' p) = S (count (mementos w p))) /\
      (is_full (mementos w p) -> count (mementos w' p) = count (mementos w p)).
Proof.
  intros Hs Hact HB Hnd Hcan.
  destruct (group_store fuel ser w A Hact Hnd)
    as (w' & E & _ & _ & _ & Hpush & _ & Hev).
  { intros p Hp. by apply Hcan. }
  exists w'. rewrite store_with_eq by done. split; [done|]. split; [done|].
  intros p Hp.
  assert (Hin : p ∈ sync_group A w) by (destruct Hp as [->| ->]; [apply sync_group_self|done]).
  specialize (Hpush p Hin). split; [done|].
  unfold count. rewrite (pushed_states _ _ _ Hpush). split; intros H.
  - by apply push_state_length_room.
  - by apply push_state_length_full.
Qed.

Lemma group_store_once_witness :
  exists w',
    store_with quiet 2 0 false (two_grouped 100) = (Ok tt, w') /\
    events w' = events (two_grouped 100) ++ [Stored 0; Stored 1] /\
    count (mementos w' 0) = 1 /\ count (mementos w' 1) = 1.
Proof.
  destruct (group_store_once quiet 0 false (two_grouped 100) 0 1) as (w' & E & Hev & H).
  - apply no_slots_quiet.
  - reflexivity.
  - vm_compute. do 2 constructor.
  - vm_compute. apply NoDup_cons_2; [|apply NoDup_singleton].
    intros H. apply list_elem_of_singleton in H. discriminate.
  - intros p Hp. vm_compute in Hp.
    apply elem_of_cons in Hp as [->|Hp];
      [|apply list_elem_of_singleton in Hp as ->].
    + split; [|vm_compute; by repeat constructor].
      repeat split; try reflexivity; try (vm_compute; discriminate).
      eexists. vm_compute. reflexivity.
    + split; [|vm_compute; by repeat constructor].
      repeat split; try reflexivity; try (vm_compute; discriminate).
      eexists. vm_compute. reflexivity.
  - exists w'. split; [exact E|]. split; [exact Hev|]. split.
    + destruct (H 0 (or_introl eq_refl)) as (_ & Hroom & _).
      apply Hroom. right. vm_compute. reflexivity.
    + destruct (H 1 (or_intror eq_refl)) as (_ & Hroom & _).
      apply Hroom. right. vm_compute. reflexivity.
Defined.

(** C5. The group table is not a partition: after [1.group(2)] and then
    [0.group(1)] tracker 1 belongs to two groups, and the groups of 0 and of 1
    differ. *)
Theorem group_not_partition :
  _SYNC_GROUPS (after (group 1 2 >> group 0 1) (fresh_world 100)) = [[1; 2]; [0; 1]] /\
  sync_group 0 (after (group 1 2 >> group 0 1) (fresh_world 100)) = [0; 1] /\
  sync_group 1 (after (group 1 2 >> group 0 1) (fresh_world 100)) = [1; 2] /\
  sync_group 2 (after (group 1 2 >> group 0 1) (fresh_world 100)) = [1; 2].
Proof. vm_compute. repeat split. Qed.

(** C6. Registering under a label that is already among the labels of the
    tracker raises [RegistrationError] and changes nothing: no binding is
    added and the existing ones are as they were. *)
Theorem register_duplicate_label self getter setter label copy_value w s :
  py_or (Attr <$> label) getter = Attr s ->
  s ∈ labels (mementos w self) ->
  register self getter setter label copy_value w = (Raise RegistrationError, w).
Proof.
  intros Hl Hs. unfold register, bind, get_memento. rewrite Hl.
  by rewrite bool_decide_eq_true_2.
Qed.

Lemma register_duplicate_label_witness :
  "foo" ∈ labels (mementos one_binding 0) /\
  register 0 (Attr "foo") None None true one_binding =
    (Raise RegistrationError, one_binding).
Proof.
  assert (H : "foo" ∈ labels (mementos one_binding 0))
    by (vm_compute; constructor).
  split; [exact H|].
  apply (register_duplicate_label 0 (Attr "foo") None None true one_binding "foo");
    [reflexivity|exact H].
Defined.

(** C7. Windows do not nest.  Leaving a window clears the deferral flag
    whatever it was on entry, so a store made inside an outer window, after
    an inner window has closed, is performed.  On tracker 0, whose history is
    empty: a store inside one [omit] window adds nothing and a [defer] window
    adds one entry on exit; but inside an [omit] window in which an inner
    [omit] window has closed, [store] pushes a snapshot, and a [defer] window
    in which an inner [omit] has closed ends with two new entries, the first
    of them not the final state. *)
Theorem store_inside_nested_window :
  _states (mementos (after (omit 0 (set_foo 0 5 >> store 2 0 false)) one_binding) 0) = [] /\
  _states (mementos
    (after (defer 2 0 false (set_foo 0 5 >> store 2 0 false >> set_foo 0 6))
       one_binding) 0) = [<["foo" := VInt 6]> ∅] /\
  _defer (mementos (after (put_defer 0 true >> omit 0 (ret tt)) one_binding) 0) = false /\
  (omit 0 (omit 0 (ret tt) >> set_foo 0 5 >> store 2 0 false) one_binding).1 = Ok tt /\
  _states (mementos
    (after (omit 0 (omit 0 (ret tt) >> set_foo 0 5 >> store 2 0 false))
       one_binding) 0) = [<["foo" := VInt 5]> ∅] /\
  (defer 2 0 false (omit 0 (ret tt) >> set_foo 0 5 >> store 2 0 false >> set_foo 0 6)
     one_binding).1 = Ok tt /\
  _states (mementos
    (after (defer 2 0 false
              (omit 0 (ret tt) >> set_foo 0 5 >> store 2 0 false >> set_foo 0 6))
       one_binding) 0) = [<["foo" := VInt 6]> ∅; <["foo" := VInt 5]> ∅].
Proof. vm_compute. repeat split. Qed.

(** C8. [store] raises [StorageError] for a target that is alive: the test is
    on the truth value of the target, and object 0 is alive and false. *)
Theorem store_falsy_target :
  heap falsy_target !! _target (mementos falsy_target 0) =
    Some (Object (<["foo" := VInt 1]> ∅) false) /\
  _defer (mementos falsy_target 0) = false /\
  store 2 0 false falsy_target = (Raise StorageError, falsy_target).
Proof. vm_compute. repeat split. Qed.

(** C9. With a setter that is an attribute name, [set] assigns the attribute
    named by the label, not by the setter: registered with getter [a], setter
    [b] and label [c], [set(9)] leaves [b] at 2 and puts 9 in [c]. *)
Theorem set_writes_label :
  _items_to_record (mementos relabelled 0) =
    [_ItemToRecord.Build "c" 0 (Attr "a") (Attr "b") true] /\
  _ItemToRecord.set (_ItemToRecord.Build "c" 0 (Attr "a") (Attr "b") true) (VInt 9)
    (heap relabelled) =
    Ok (<[0 := Object (<["a" := VInt 1]> (<["b" := VInt 2]> (<["c" := VInt 9]> ∅))) true]> ∅).
Proof. vm_compute. repeat split. Qed.

(** C10, as stated, fails when it is the store that closes the window of
    [restore] that raises: tracker 0 holds one state and its target has
    become false, [restore(0)] raises [StorageError] and the deferral flag is
    clear; the next [store] is not skipped (it raises in turn), and once the
    target is true again a [store] adds an entry. *)
Lemma restore_failure_clears_flag :
  count (mementos falsy_since 0) = 1 /\
  (restore 3 0 0 falsy_since).1 = Raise StorageError /\
  _defer (mementos (after (restore 3 0 0) falsy_since) 0) = false /\
  (store 2 0 false (after (restore 3 0 0) falsy_since)).1 = Raise StorageError /\
  count (mementos
    (after (store 2 0 false) (after (set_foo 0 7) (after (restore 3 0 0) falsy_since)))
    0) = 2.
Proof. vm_compute. repeat split. Qed.

(** C10, amended. Nothing is connected to the signals and the trackers of
    the group read and write their bindings by attribute name.  When
    [restore] raises, either the exception was raised inside its deferred
    window (as for an index beyond the history, see [restore_out_of_range]):
    then the deferral flag of the tracker is still set, every later [store]
    returns at once and changes nothing, and the exit of a later [defer]
    window clears the flag; or the window was left normally and the exception
    is that of the store that closes it: then the flag is clear. *)
Theorem restore_failure_keeps_deferred s fuel self index w e w1 :
  no_slots s ->
  (forall p, p ∈ sync_group self w -> attribute_accessors (mementos w p)) ->
  restore_with s (S fuel) self index w = (Raise e, w1) ->
  (restore_window (restore_with s fuel) self index (put_defer self true w).2 =
     (Raise e, w1) /\
   _defer (mementos w1 self) = true /\
   (forall fuel' ser, store_with s (S fuel') self ser w1 = (Ok tt, w1)) /\
   (forall fuel' ser r w2,
      defer_with (store_with s fuel') self ser (ret tt) w1 = (r, w2) ->
      _defer (mementos w2 self) = false)) \/
  (exists w2,
     restore_window (restore_with s fuel) self index (put_defer self true w).2 =
       (Ok tt, w2) /\
     store_with s fuel self false (put_defer self false w2).2 = (Raise e, w1) /\
     _defer (mementos w1 self) = false).
Proof.
  intros Hs _. rewrite restore_with_eq, restore_window_with_eq by done.
  cbn [restore]. unfold defer_with. unfold bind at 1. unfold bind at 1.
  unfold put_defer at 1. unfold bind at 1. cbn [snd].
  destruct (restore_window (restore fuel) self index _) as [[[]|e'|] w2] eqn:Hw.
  - unfold bind at 1. unfold put_defer at 1.
    match goal with |- context [store fuel self false ?x] => set (w3 := x) end.
    destruct (store fuel self false w3) as [[[]|e'|] w4] eqn:E; [done| |done].
    intros [= -> ->]. right. exists w2. split; [done|].
    rewrite store_with_eq by done. split; [exact E|].
    rewrite (store_flags _ _ _ _ _ _ E self). unfold w3. simpl.
    by rewrite fn_lookup_insert.
  - intros [= -> ->]. left.
    assert (Hd : _defer (mementos w1 self) = true).
    { rewrite (window_self _ _ _ _ _ _ Hw). simpl. by rewrite fn_lookup_insert. }
    split; [done|]. split; [done|]. split.
    + intros fuel' ser. rewrite store_with_eq by done. rewrite store_unfold. by rewrite Hd.
    + intros fuel' ser r w2'. unfold defer_with, bind, put_defer at 1, ret.
      unfold put_defer at 1. rewrite store_with_eq by done.
      match goal with |- context [store fuel' self ser ?x] => set (w3 := x) end.
      destruct (store fuel' self ser w3) as [r3 w4] eqn:E. intros [= <- <-].
      rewrite (store_flags _ _ _ _ _ _ E self). unfold w3. simpl.
      by rewrite fn_lookup_insert.
  - done.
Qed.

Lemma restore_failure_keeps_deferred_witness :
  restore_with quiet 3 0 0 one_binding = (Raise IndexError, in_window) /\
  _defer (mementos in_window 0) = true /\
  store_with quiet 2 0 false in_window = (Ok tt, in_window).
Proof.
  assert (E : restore_with quiet 3 0 0 one_binding = (Raise IndexError, in_window))
    by reflexivity.
  split; [exact E|].
  destruct (restore_failure_keeps_deferred quiet 2 0 0 one_binding IndexError in_window)
    as [(_ & Hd & Hs & _)|(w2 & Hw & _)].
  - apply no_slots_quiet.
  - intros p Hp. vm_compute in Hp. apply list_elem_of_singleton in Hp as ->.
    split; vm_compute; by repeat constructor.
  - exact E.
  - split; [exact Hd|]. apply Hs.
  - vm_compute in Hw. discriminate.
Defined.

(** * Further properties of the code *)

(** A computation that answers a value leaves the state [after] names. *)
Lemma run_ok {A} (c : M A) w a : (c w).1 = Ok a -> c w = (Ok a, after c w).
Proof. unfold after. destruct (c w) as [r w']. simpl. by intros ->. Qed.

(** ** Registration *)

Lemma labels_filter (P : string -> Prop)
    (H1 : forall item, Decision (P (_ItemToRecord.label item)))
    (H2 : forall l, Decision (P l)) (items : list _ItemToRecord.t) :
  _ItemToRecord.label <$> filter (fun item => P (_ItemToRecord.label item)) items =
  filter P (_ItemToRecord.label <$> items).
Proof.
  induction items as [|i items IH]; [done|].
  rewrite fmap_cons, !filter_cons.
  destruct (decide (P (_ItemToRecord.label i))) as [Hp|Hp];
    destruct (H2 (_ItemToRecord.label i)) as [Hq|Hq]; try done.
  by rewrite fmap_cons, IH.
Qed.

Lemma register_attr_fresh self name copy_value w :
  name ∉ labels (mementos w self) ->
  register self (Attr name) None None copy_value w =
  (Ok tt,
   set_events (events w ++ [Registered self])
     (set_mementos
        (<[self := set_items
                     (_items_to_record (mementos w self) ++
                      [_ItemToRecord.Build name (_target (mementos w self))
                         (Attr name) (Attr name) copy_value])
                     (mementos w self)]> (mementos w)) w)).
Proof.
  intros Hn. unfold register. unfold_monad. simpl.
  by rewrite bool_decide_eq_false_2.
Qed.

Lemma register_attr_duplicate self name copy_value w :
  name ∈ labels (mementos w self) ->
  register self (Attr name) None None copy_value w = (Raise RegistrationError, w).
Proof.
  intros Hn. unfold register. unfold_monad. simpl.
  by rewrite bool_decide_eq_true_2.
Qed.

Lemma set_items_id m : set_items (_items_to_record m) m = m.
Proof. by destruct m. Qed.

Lemma set_items_twice l1 l2 m : set_items l2 (set_items l1 m) = set_items l2 m.
Proof. done. Qed.

(** [remove_last] takes away one binding of the label and nothing else; it
    fails only when there is no binding of the label. *)
Lemma remove_last_spec label items :
  match remove_last label items with
  | Some items' =>
      filter (fun item => _ItemToRecord.label item <> label) items' =
      filter (fun item => _ItemToRecord.label item <> label) items /\
      length (filter (fun item => _ItemToRecord.label item = label) items) =
      S (length (filter (fun item => _ItemToRecord.label item = label) items'))
  | None => filter (fun item => _ItemToRecord.label item = label) items = []
  end.
Proof.
  induction items as [|item rest IH]; [done|].
  cbn [remove_last]. destruct (remove_last label rest) as [rest'|].
  - destruct IH as [IH1 IH2]. rewrite !filter_cons.
    destruct (decide (_ItemToRecord.label item <> label));
      destruct (decide (_ItemToRecord.label item = label)); simpl; try done;
      split; congruence.
  - case_bool_decide as Hl.
    + rewrite !filter_cons. destruct (decide (_ItemToRecord.label item <> label)); [done|].
      destruct (decide (_ItemToRecord.label item = label)); [|done].
      split; [done|]. simpl. by rewrite IH.
    + rewrite filter_cons. by destruct (decide (_ItemToRecord.label item = label)).
Qed.

(** The loop of [unregister], nothing being connected: as many turns as there
    are bindings of the label remove them all. *)
Lemma unregister_loop s self label : no_slots s -> forall l w,
  Forall (fun item => _ItemToRecord.label item = label) l ->
  length l =
    length (filter (fun item => _ItemToRecord.label item = label)
              (_items_to_record (mementos w self))) ->
  exists w',
    for_each l (fun item =>
      let* m := get_memento self in
      match remove_last (_ItemToRecord.label item) (_items_to_record m) with
      | None => raise ValueError
      | Some items =>
          put_memento self (set_items items m) >>
          emit_to (unregistered s self) (Unregistered self)
      end) w = (Ok tt, w') /\
    mementos w' self =
      set_items (filter (fun item => _ItemToRecord.label item <> label)
                   (_items_to_record (mementos w self))) (mementos w self) /\
    (forall p, p <> self -> mementos w' p = mementos w p) /\
    heap w' = heap w /\
    events w' = events w ++ replicate (length l) (Unregistered self).
Proof.
  intros Hs. destruct (Hs self) as (_ & Hu & _). rewrite Hu. clear Hu.
  induction l as [|item l IH]; intros w Hall Hlen.
  - exists w. split; [done|]. simpl in Hlen. symmetry in Hlen.
    apply length_zero_iff_nil in Hlen.
    assert (Hf : filter (fun item => _ItemToRecord.label item <> label)
                   (_items_to_record (mementos w self)) =
                 _items_to_record (mementos w self)).
    { revert Hlen. generalize (_items_to_record (mementos w self)).
      induction l as [|i l IH]; [done|]. rewrite !filter_cons.
      destruct (decide (_ItemToRecord.label i = label)); [done|].
      destruct (decide (_ItemToRecord.label i <> label)); [|done].
      intros H. by rewrite IH. }
    rewrite Hf, set_items_id. simpl. by rewrite app_nil_r.
  - apply list.Forall_cons in Hall as [Hi Hall]. cbn [for_each].
    unfold bind at 1. unfold bind at 1, get_memento at 1. rewrite Hi.
    pose proof (remove_last_spec label (_items_to_record (mementos w self))) as Hr.
    destruct (remove_last label (_items_to_record (mementos w self))) as [items1|];
      [|rewrite Hr in Hlen; done].
    destruct Hr as [Hr1 Hr2].
    unfold bind at 1, put_memento at 1. rewrite emit_to_nil. unfold emit at 1.
    match goal with |- context [for_each _ _ ?x] => set (w1 := x) end.
    assert (Hm1 : mementos w1 self = set_items items1 (mementos w self)).
    { unfold w1. simpl. by rewrite fn_lookup_insert. }
    destruct (IH w1 Hall) as (w' & E & Hm & Ho & Hh & He).
    { rewrite Hm1. simpl in *. lia. }
    exists w'. split; [exact E|]. rewrite Hm, Hm1. simpl. rewrite Hr1.
    split; [done|]. split.
    { intros p Hp. rewrite Ho by done. unfold w1. simpl. by rewrite fn_lookup_insert_ne. }
    split; [by rewrite Hh|]. rewrite He. unfold w1. simpl. by rewrite <- app_assoc.
Qed.

Lemma unregister_returns s self label w : no_slots s ->
  exists w',
    unregister s self label w = (Ok tt, w') /\
    mementos w' self =
      set_items (filter (fun item => _ItemToRecord.label item <> label)
                   (_items_to_record (mementos w self))) (mementos w self) /\
    (forall p, p <> self -> mementos w' p = mementos w p) /\
    heap w' = heap w /\
    events w' =
      events w ++
      replicate (length (filter (fun l => l = label) (labels (mementos w self))))
        (Unregistered self).
Proof.
  intros Hs. unfold unregister. unfold bind at 1, get_memento at 1.
  destruct (unregister_loop s self label Hs
              (reverse (filter (fun item => _ItemToRecord.label item = label)
                          (_items_to_record (mementos w self)))) w)
    as (w' & E & Hm & Ho & Hh & He).
  - apply Forall_reverse, list.Forall_forall. intros x Hx.
    by apply list_elem_of_filter in Hx as [Hx _].
  - by rewrite length_reverse.
  - exists w'. split; [exact E|]. split; [done|]. split; [done|]. split; [done|].
    rewrite He, length_reverse. unfold labels.
    rewrite <- (labels_filter (fun l => l = label) _ _). by rewrite length_fmap.
Qed.

(** X1. With nothing connected to [unregistered], [unregister] returns.  The
    labels of the tracker are the former labels without the one given, in
    their order, so that label is no longer registered; the history, the
    other trackers and the objects are as they were, and [unregistered] is
    emitted once for every binding removed (not at all for a label that was
    not registered). *)
Theorem unregister_removes_label s self label w :
  no_slots s ->
  exists w',
    unregister s self label w = (Ok tt, w') /\
    labels (mementos w' self) =
      filter (fun l => l <> label) (labels (mementos w self)) /\
    (label ∉ labels (mementos w' self)) /\
    _states (mementos w' self) = _states (mementos w self) /\
    (forall p, p <> self -> mementos w' p = mementos w p) /\
    heap w' = heap w /\
    events w' =
      events w ++
      replicate (length (filter (fun l => l = label) (labels (mementos w self))))
        (Unregistered self).
Proof.
  intros Hs. destruct (unregister_returns s self label w Hs)
    as (w' & E & Hm & Ho & Hh & He).
  exists w'. split; [exact E|].
  assert (Hl : labels (mementos w' self) =
               filter (fun l => l <> label) (labels (mementos w self))).
  { rewrite Hm. unfold labels. simpl. apply (labels_filter (fun l => l <> label) _ _). }
  split; [done|]. split.
  { rewrite Hl. intros H. by apply list_elem_of_filter in H as [H _]. }
  split; [by rewrite Hm|]. done.
Qed.

Lemma unregister_removes_label_witness :
  exists w',
    unregister quiet 0 "foo" one_binding = (Ok tt, w') /\
    labels (mementos w' 0) = [] /\
    events w' = [Registered 0; Unregistered 0].
Proof.
  destruct (unregister_removes_label quiet 0 "foo" one_binding no_slots_quiet)
    as (w' & E & Hl & _ & _ & _ & _ & He).
  exists w'. split; [exact E|]. split; [exact Hl|exact He].
Defined.

(** X2. With nothing connected to [unregistered] and [registered]: after
    [unregister(label)] the label can be registered again, [register(label)]
    returns and puts the label last. *)
Theorem unregister_then_register s self label copy_value w :
  no_slots s ->
  exists w',
    (unregister s self label >>
     register_with s self (Attr label) None None copy_value) w = (Ok tt, w') /\
    labels (mementos w' self) =
      filter (fun l => l <> label) (labels (mementos w self)) ++ [label].
Proof.
  intros Hs. destruct (unregister_returns s self label w Hs)
    as (w1 & E & Hm & _).
  assert (Hl : labels (mementos w1 self) =
               filter (fun l => l <> label) (labels (mementos w self))).
  { rewrite Hm. unfold labels. simpl. apply (labels_filter (fun l => l <> label) _ _). }
  unfold bind. rewrite E, register_with_eq by done.
  rewrite register_attr_fresh.
  - eexists. split; [done|]. simpl. rewrite fn_lookup_insert. unfold labels in *. simpl.
    rewrite fmap_app. simpl. by rewrite Hl.
  - rewrite Hl. intros H. by apply list_elem_of_filter in H as [H _].
Qed.

Lemma unregister_then_register_witness :
  exists w',
    (unregister quiet 0 "foo" >>
     register_with quiet 0 (Attr "foo") None None true) one_binding = (Ok tt, w') /\
    labels (mementos w' 0) = ["foo"].
Proof.
  apply (unregister_then_register quiet 0 "foo" true one_binding no_slots_quiet).
Defined.

Lemma register_list_bare_ok self names : forall w,
  NoDup names ->
  (forall n, n ∈ names -> n ∉ labels (mementos w self)) ->
  exists w',
    register_list self (bare <$> names) w = (Ok tt, w') /\
    labels (mementos w' self) = labels (mementos w self) ++ names /\
    _states (mementos w' self) = _states (mementos w self) /\
    _target (mementos w' self) = _target (mementos w self) /\
    (forall p, p <> self -> mementos w' p = mementos w p) /\
    heap w' = heap w /\
    events w' = events w ++ replicate (length names) (Registered self).
Proof.
  induction names as [|n names IH]; intros w Hnd Hfresh.
  - exists w. simpl. rewrite !app_nil_r. by repeat split.
  - apply list.NoDup_cons in Hnd as [Hn Hnd].
    unfold register_list. rewrite fmap_cons. cbn [for_each]. unfold bind.
    unfold bare at 1. rewrite register_attr_fresh by (apply Hfresh; constructor).
    match goal with |- context [for_each _ _ ?x] => set (w1 := x) end.
    destruct (IH w1 Hnd) as (w' & E & Hl & Hs & Ht & Ho & Hh & He).
    { intros m Hm. unfold w1, labels. simpl. rewrite fn_lookup_insert. simpl.
      rewrite fmap_app. simpl. intros H. apply elem_of_app in H as [H|H].
      - revert H. apply Hfresh. by constructor.
      - apply list_elem_of_singleton in H. by subst. }
    exists w'. unfold register_list in E. rewrite E. split; [done|].
    revert Hl Hs Ht Ho Hh He. unfold w1, labels. simpl. rewrite !fn_lookup_insert. simpl.
    intros Hl Hs Ht Ho Hh He.
    split; [by rewrite Hl, fmap_app, <- app_assoc|].
    split; [done|]. split; [done|]. split.
    { intros p Hp. rewrite Ho by done. by rewrite fn_lookup_insert_ne. }
    split; [done|]. by rewrite He, <- app_assoc.
Qed.

(** X3. With nothing connected to [registered], [register] of a list of
    attribute names that are distinct and not registered yet registers them
    all, in the order of the list, with one [registered] signal each. *)
Theorem register_list_fresh s self names w :
  no_slots s ->
  NoDup names ->
  (forall n, n ∈ names -> n ∉ labels (mementos w self)) ->
  exists w',
    register_list_with s self (bare <$> names) w = (Ok tt, w') /\
    labels (mementos w' self) = labels (mementos w self) ++ names /\
    events w' = events w ++ replicate (length names) (Registered self).
Proof.
  intros Hs Hnd Hf. destruct (register_list_bare_ok self names w Hnd Hf)
    as (w' & E & Hl & _ & _ & _ & _ & He).
  exists w'. by rewrite register_list_with_eq.
Qed.

Lemma register_list_fresh_witness :
  exists w',
    register_list_with quiet 0 (bare <$> ["a"; "b"]) (fresh_world 100) = (Ok tt, w') /\
    labels (mementos w' 0) = ["a"; "b"].
Proof.
  destruct (register_list_fresh quiet 0 ["a"; "b"] (fresh_world 100)) as (w' & E & Hl & _).
  - apply no_slots_quiet.
  - apply NoDup_cons_2; [|apply NoDup_singleton].
    intros H. apply list_elem_of_singleton in H. discriminate.
  - intros n _ H. vm_compute in H. by apply elem_of_nil in H.
  - exists w'. split; [exact E|exact Hl].
Defined.

Lemma for_each_app {A} (l1 l2 : list A) (body : A -> M unit) w :
  for_each (l1 ++ l2) body w = (for_each l1 body >> for_each l2 body) w.
Proof.
  revert w. induction l1 as [|x l1 IH]; intros w; [done|].
  simpl. unfold bind. destruct (body x w) as [[[]|e|] w1]; first [done | apply IH].
Qed.

(** X4. [register] of a list is not atomic: at the first name that is
    registered already, or that occurs earlier in the list, it raises
    [RegistrationError], and the names before that one stay registered. *)
Theorem register_list_stops_at_duplicate self before name rest w :
  NoDup before ->
  (forall n, n ∈ before -> n ∉ labels (mementos w self)) ->
  name ∈ labels (mementos w self) ++ before ->
  exists w',
    register_list self (bare <$> (before ++ name :: rest)) w =
      (Raise RegistrationError, w') /\
    labels (mementos w' self) = labels (mementos w self) ++ before /\
    events w' = events w ++ replicate (length before) (Registered self).
Proof.
  intros Hnd Hf Hin.
  destruct (register_list_bare_ok self before w Hnd Hf)
    as (w' & E & Hl & _ & _ & _ & _ & He).
  exists w'. split; [|done].
  unfold register_list in *. rewrite fmap_app, for_each_app. unfold bind at 1.
  rewrite E. rewrite fmap_cons. cbn [for_each]. unfold bind. unfold bare at 1.
  rewrite register_attr_duplicate; [done|]. by rewrite Hl.
Qed.

Lemma register_list_stops_at_duplicate_witness :
  exists w',
    register_list 0 (bare <$> ["a"; "a"; "b"]) (fresh_world 100) =
      (Raise RegistrationError, w') /\
    labels (mementos w' 0) = ["a"].
Proof.
  destruct (register_list_stops_at_duplicate 0 ["a"] "a" ["b"] (fresh_world 100))
    as (w' & E & Hl & _).
  - apply NoDup_singleton.
  - intros n _ H. vm_compute in H. by apply elem_of_nil in H.
  - vm_compute. constructor.
  - exists w'. split; [exact E|exact Hl].
Defined.

(** X5. Registering a callable getter with no label (omitted or empty)
    raises [TypeError] and registers nothing: the state is unchanged. *)
Theorem register_callable_needs_label self c setter label copy_value w :
  label = None \/ label = Some "" ->
  register self (Call c) setter label copy_value w = (Raise TypeError, w).
Proof. intros [->| ->]; reflexivity. Qed.

(** ** Bindings *)

Lemma deepcopy_id v : deepcopy v = v.
Proof. by destruct v. Qed.

Lemma copy_id item v : _ItemToRecord._copy item v = v.
Proof. unfold _ItemToRecord._copy. destruct (_ItemToRecord._copy_value item); [apply deepcopy_id|done]. Qed.

(** X6. For a binding whose setter is not callable and whose getter is an
    attribute name: after [set(v)] has returned, [get()] answers [v] when the
    getter is the label, and what it answered before [set] when the getter is
    another attribute. *)
Theorem set_then_get item name v h h' :
  _ItemToRecord._set_is_callable item = false ->
  _ItemToRecord._getter item = Attr name ->
  _ItemToRecord.set item v h = Ok h' ->
  (name = _ItemToRecord.label item -> _ItemToRecord.get item h' = Ok v) /\
  (name <> _ItemToRecord.label item -> _ItemToRecord.get item h' = _ItemToRecord.get item h).
Proof.
  unfold _ItemToRecord._set_is_callable, _ItemToRecord.set, _ItemToRecord.get.
  intros Hs ->. destruct (_ItemToRecord._setter item) as [s|c]; [|done].
  destruct (h !! _ItemToRecord._target item) as [o|] eqn:Ho; [|done].
  intros [= <-]. rewrite lookup_insert_eq. simpl. split.
  - intros ->. rewrite lookup_insert_eq. by rewrite copy_id.
  - intros Hne. by rewrite lookup_insert_ne.
Qed.

Lemma set_then_get_witness :
  _ItemToRecord.get (_ItemToRecord.Build "foo" 0 (Attr "foo") (Attr "foo") true)
    (<[0 := setattr (foo_object 1) "foo" (VInt 9)]> (heap_foo 1)) = Ok (VInt 9).
Proof.
  apply (set_then_get (_ItemToRecord.Build "foo" 0 (Attr "foo") (Attr "foo") true)
           "foo" (VInt 9) (heap_foo 1)); reflexivity.
Defined.

Lemma register_callable_needs_label_witness :
  register 0 (Call (Fn0 (fun _ => VNone))) None None true (fresh_world 100) =
  (Raise TypeError, fresh_world 100).
Proof.
  apply register_callable_needs_label. left. reflexivity.
Defined.

(** ** Store *)

Lemma store_zero p ser w : store 0 p ser w = (OutOfFuel, w).
Proof. reflexivity. Qed.

(** [store] never writes an object. *)
Lemma store_heap fuel p ser w r w' :
  store fuel p ser w = (r, w') -> heap w' = heap w.
Proof.
  apply (store_frame (fun w w' => heap w' = heap w)); try done.
  - intros x y z H1 H2. by rewrite H2.
  - intros p' ser' w0 r0 w0' H. by apply store_steps_frame with (self := p') in H as [].
Qed.

(** The propagation to the group leaves the caller's own tracker as its
    steps left it. *)
Lemma propagate_store_self fuel self ser w r w' :
  propagate_store fuel self ser w = (r, w') ->
  mementos w' self = mementos w self.
Proof.
  unfold propagate_store.
  destruct (decide (self ∈ _ACTIVELY_PROCESSING w)) as [Hin|Hin].
  - rewrite with_sync_group_active by done. by intros [= <- <-].
  - unfold with_sync_group, _SyncGroupPropogation.__enter__.
    rewrite bool_decide_eq_false_2 by done.
    set (g := sync_group self w).
    destruct (for_each _ _ (set_active _ _)) as [r2 w2] eqn:E2.
    assert (HU : mementos w2 self =
                 mementos (set_active (_ACTIVELY_PROCESSING w ++ g) w) self).
    { destruct fuel as [|fuel].
      - revert E2. apply (for_each_frame (fun a b => mementos b self = mementos a self)).
        + done.
        + intros x y z H1 H2. by rewrite H2.
        + by intros x w0 r0 w0' [= <- <-].
      - apply (peers_store_any fuel ser self) in E2 as [HU _]; [apply HU|].
        intros p Hp. apply list_elem_of_filter in Hp as [Hne Hp]. split; [|done].
        simpl. apply elem_of_app. by right. }
    unfold _SyncGroupPropogation.__exit__.
    destruct (for_each _ _ w2) as [r3 w3] eqn:E3.
    apply exit_active in E3 as [a ->]. simpl in HU.
    destruct r3 as [[]|e|]; by intros [= <- <-].
Qed.

(** Outside a deferred window [store] is the tracker's own steps followed by
    the propagation, which leaves the tracker alone. *)
Lemma store_own_steps fuel self ser w r w' :
  _defer (mementos w self) = false ->
  store (S fuel) self ser w = (r, w') ->
  exists r1 w1,
    store_steps self ser w = (r1, w1) /\
    mementos w' self = mementos w1 self /\
    (r = Ok tt -> r1 = Ok tt).
Proof.
  intros Hd. rewrite store_unfold, Hd. unfold bind.
  destruct (store_steps self ser w) as [r1 w1] eqn:E.
  destruct r1 as [[]|e|].
  - intros H. exists (Ok tt), w1. split; [done|]. split; [|done].
    by apply propagate_store_self in H.
  - intros [= <- <-]. by exists (Raise e), w1.
  - intros [= <- <-]. by exists OutOfFuel, w1.
Qed.

Lemma take_snapshot_keys items h : forall acc s,
  take_snapshot items h acc = Ok s ->
  forall l, is_Some (s !! l) <->
            is_Some (acc !! l) \/ l ∈ (_ItemToRecord.label <$> items).
Proof.
  induction items as [|item items IH]; intros acc s.
  - intros [= <-] l. rewrite fmap_nil. split; [by left|]. intros [H|H]; [done|].
    by apply elem_of_nil in H.
  - cbn [take_snapshot]. destruct (_ItemToRecord.get item h) as [v|e|]; [|done|done].
    intros H l. rewrite (IH _ _ H l), fmap_cons, elem_of_cons.
    destruct (decide (l = _ItemToRecord.label item)) as [->|Hne].
    + rewrite lookup_insert_eq. split; [by right; left|]. intros _. by left.
    + rewrite lookup_insert_ne by done. tauto.
Qed.

(** X7. After a [store] that returned, outside a deferred window and with a
    cap that is not negative, the newest entry of the history has exactly the
    labels of the tracker as keys; when the labels are distinct, each key
    holds what the getter of its binding read from the objects as they were
    at the call. *)
Theorem store_snapshot_keys fuel self ser w w' :
  _defer (mementos w self) = false ->
  (0 <= _max_states (mementos w self))%Z ->
  store (S fuel) self ser w = (Ok tt, w') ->
  exists s rest,
    _states (mementos w' self) = s :: rest /\
    (forall l, is_Some (s !! l) <-> l ∈ labels (mementos w self)) /\
    (NoDup (labels (mementos w self)) ->
     forall item, item ∈ _items_to_record (mementos w self) ->
       exists v, _ItemToRecord.get item (heap w) = Ok v /\
                 s !! _ItemToRecord.label item = Some v).
Proof.
  intros Hd HM E.
  destruct (store_own_steps _ _ _ _ _ _ Hd E) as (r1 & w1 & E1 & Hm & Hr).
  rewrite (Hr eq_refl) in E1.
  destruct (store_steps_inv _ _ _ _ E1 Hd) as (s & Hs & _ & Hst).
  destruct (push_state_head (_max_states (mementos w self)) s
              (_states (mementos w self)) HM) as [rest Hp].
  exists s, rest. rewrite Hm, Hst. split; [done|]. split.
  - intros l. rewrite (take_snapshot_keys _ _ _ _ Hs l), lookup_empty.
    unfold labels. split; [|by right]. intros [[? [=]]|H]; done.
  - intros Hnd. by apply (take_snapshot_lookup _ _ _ _ Hs Hnd).
Qed.

Lemma store_snapshot_keys_witness :
  exists s rest,
    _states (mementos (after (store 2 0 false) one_binding) 0) = s :: rest /\
    (is_Some (s !! "foo") <-> "foo" ∈ labels (mementos one_binding 0)).
Proof.
  destruct (store_snapshot_keys 1 0 false one_binding (after (store 2 0 false) one_binding))
    as (s & rest & Hs & Hk & _).
  - reflexivity.
  - vm_compute. discriminate.
  - apply run_ok. vm_compute. reflexivity.
  - exists s, rest. split; [exact Hs|apply Hk].
Defined.

(** X8. A [store] that has to serialise (by its argument or by
    [_always_serialise]) on a tracker with no serialiser raises [Exception]
    after the snapshot has been pushed: the history holds the new entry, no
    [stored] signal is emitted and nothing is propagated to the group. *)
Theorem store_without_serialiser fuel self ser w s :
  _defer (mementos w self) = false ->
  target_truth (heap w !! _target (mementos w self)) = true ->
  take_snapshot (_items_to_record (mementos w self)) (heap w) ∅ = Ok s ->
  ser || _always_serialise (mementos w self) = true ->
  _serialiser (mementos w self) = false ->
  store (S fuel) self ser w =
  (Raise Exception,
   set_mementos
     (<[self := set_states
                  (push_state (_max_states (mementos w self)) s
                     (_states (mementos w self)))
                  (mementos w self)]> (mementos w)) w).
Proof.
  intros Hd Ht Hs Hser Hno. cbn [store]. unfold_monad.
  rewrite Hd, Ht, Hs. simpl. rewrite Hser. unfold serialise. unfold_monad. simpl.
  rewrite fn_lookup_insert. simpl. by rewrite Hno.
Qed.

Lemma store_without_serialiser_witness :
  (store 1 0 true one_binding).1 = Raise Exception /\
  count (mementos (after (store 1 0 true) one_binding) 0) = 1.
Proof.
  unfold after.
  rewrite (store_without_serialiser 0 0 true one_binding (<["foo" := VInt 1]> ∅));
    try reflexivity.
  split; reflexivity.
Defined.

(** X9. [store] and [restore] keep the cap: when every capped history is
    within its cap before the call it is within its cap after it, whether the
    call returns, raises, or is cut short. *)
Theorem history_cap_invariant fuel self ser index w :
  capped w ->
  capped (after (store fuel self ser) w) /\
  capped (after (restore fuel self index) w).
Proof.
  intros Hc. unfold after. split.
  - destruct (store fuel self ser w) as [r w'] eqn:E. by apply store_capped in E.
  - destruct (restore fuel self index w) as [r w'] eqn:E. by apply restore_capped in E.
Qed.

Lemma history_cap_invariant_witness :
  capped (after (store 3 0 false) (fresh_world 2)) /\
  capped (after (restore 3 0 0) (fresh_world 2)).
Proof.
  apply history_cap_invariant. intros q _. vm_compute. discriminate.
Defined.

Lemma push_state_take M s l :
  (0 < M)%Z -> (Z.of_nat (length l) <= M)%Z ->
  push_state M s l = take (Z.to_nat M) (s :: l).
Proof.
  intros HM Hl. destruct (decide (Z.of_nat (length l) < M)%Z) as [Hlt|Hge].
  - rewrite push_state_room by auto. rewrite take_ge; [done|]. simpl. lia.
  - rewrite push_state_full by lia.
    replace (Z.to_nat M) with (S (length l - 1)) by lia. done.
Qed.

Lemma take_app_take {A} n (a b : list A) :
  take n (a ++ take n b) = take n (a ++ b).
Proof.
  destruct (decide (n <= length a)) as [Hle|Hgt].
  - by rewrite !take_app_le.
  - rewrite !take_app_ge by lia. f_equal. rewrite take_take. f_equal. lia.
Qed.

Lemma stores_bounded fuel self steps : forall w0 wN,
  ungrouped self w0 ->
  (0 < _max_states (mementos w0 self))%Z ->
  (Z.of_nat (count (mementos w0 self)) <= _max_states (mementos w0 self))%Z ->
  _defer (mementos w0 self) = false ->
  stores (S fuel) self steps w0 = (Ok tt, wN) ->
  exists snaps,
    Forall2 (fun step s =>
               take_snapshot (_items_to_record (mementos w0 self)) step.1 ∅ = Ok s)
            steps snaps /\
    _states (mementos wN self) =
      take (Z.to_nat (_max_states (mementos w0 self)))
           (reverse snaps ++ _states (mementos w0 self)).
Proof.
  induction steps as [|[h ser] rest IH]; intros w0 wN Hu HM Hc Hd.
  - intros [= <-]. exists []. split; [constructor|]. simpl.
    rewrite take_ge; [done|]. unfold count in Hc. lia.
  - cbn [stores]. unfold bind at 1, mutate at 1.
    unfold bind at 1. rewrite store_ungrouped by done.
    destruct (store_steps self ser (set_heap h w0)) as [[[]|e|] w1] eqn:E; try done.
    intros Hrest.
    pose proof (store_steps_frame _ _ _ _ _ E) as HF.
    destruct (store_steps_inv _ _ _ _ E Hd) as (s & Hs & _ & Hst). simpl in Hs, Hst.
    unfold count in Hc. rewrite push_state_take in Hst by done.
    pose proof (sb_groups _ _ _ HF) as Hg. pose proof (sb_max _ _ _ HF) as Hmax.
    pose proof (sb_items _ _ _ HF) as Hit. pose proof (sb_defer _ _ _ HF) as Hdf.
    simpl in Hg, Hmax, Hit, Hdf.
    destruct (IH w1 wN) as (snaps & Hall & Hfin).
    { unfold ungrouped. by rewrite Hg. }
    { by rewrite Hmax. }
    { rewrite Hmax. unfold count. rewrite Hst, length_take. simpl. lia. }
    { congruence. }
    { done. }
    exists (s :: snaps). split.
    + constructor; [done|]. by rewrite Hit in Hall.
    + rewrite Hfin, Hmax, Hst, take_app_take, reverse_cons, <- app_assoc. done.
Qed.

(** X10. After a sequence of stores on an ungrouped tracker with a cap
    [max_states > 0] and an empty history, the history is the first
    [max_states] of the snapshots taken, the latest first, and [count()] is
    the smaller of the number of stores and [max_states]. *)
Theorem bounded_history fuel self steps w0 wN :
  ungrouped self w0 ->
  (0 < _max_states (mementos w0 self))%Z ->
  _states (mementos w0 self) = [] ->
  _defer (mementos w0 self) = false ->
  stores (S fuel) self steps w0 = (Ok tt, wN) ->
  exists snaps,
    Forall2 (fun step s =>
               take_snapshot (_items_to_record (mementos w0 self)) step.1 ∅ = Ok s)
            steps snaps /\
    _states (mementos wN self) =
      take (Z.to_nat (_max_states (mementos w0 self))) (reverse snaps) /\
    count (mementos wN self) =
      length steps `min` Z.to_nat (_max_states (mementos w0 self)).
Proof.
  intros Hu HM He Hd E.
  assert (Hc : (Z.of_nat (count (mementos w0 self)) <= _max_states (mementos w0 self))%Z).
  { unfold count. rewrite He. simpl. lia. }
  destruct (stores_bounded fuel self steps w0 wN Hu HM Hc Hd E) as (snaps & Hall & Hst).
  exists snaps. split; [done|]. rewrite He, app_nil_r in Hst. split; [done|].
  unfold count. rewrite Hst, length_take, length_reverse.
  apply list.Forall2_length in Hall. lia.
Qed.

Lemma bounded_history_witness :
  count (mementos (after (stores 1 0 three_steps) capped_binding) 0) = 2.
Proof.
  destruct (bounded_history 0 0 three_steps capped_binding
              (after (stores 1 0 three_steps) capped_binding))
    as (snaps & _ & _ & Hc).
  - constructor.
  - vm_compute. reflexivity.
  - reflexivity.
  - reflexivity.
  - apply run_ok. vm_compute. reflexivity.
  - rewrite Hc. reflexivity.
Defined.

(** X30. A slot of [stored] that raises makes [store] raise the same
    exception, after the snapshot has been pushed and the signal emitted and
    before any peer stores: the history of the tracker holds the new entry
    and no other tracker has changed. *)
Theorem store_slot_raises s fuel self ser w slot rest e :
  stored s self = slot :: rest ->
  (forall w0, slot w0 = (Raise e, w0)) ->
  can_store ser w self ->
  exists w',
    store_with s (S fuel) self ser w = (Raise e, w') /\
    pushed w w' self /\
    events w' = events w ++ [Stored self] /\
    (forall p, p <> self -> mementos w' p = mementos w p).
Proof.
  intros Hslots Hslot Hcan.
  destruct (store_steps_pushed ser w self Hcan) as (w1 & E1 & HF & Hpush & Hev).
  exists w1. rewrite store_with_unfold.
  destruct Hcan as (-> & _). unfold bind. rewrite E1, Hslots. cbn [for_each].
  unfold bind. rewrite Hslot. split; [done|]. split; [done|]. split; [done|].
  apply (sb_others _ _ _ HF).
Qed.

Lemma store_slot_raises_witness :
  exists w',
    store_with stored_raises 2 0 false (two_grouped 100) = (Raise Exception, w') /\
    count (mementos w' 0) = 1 /\ count (mementos w' 1) = 0 /\
    events w' = events (two_grouped 100) ++ [Stored 0].
Proof.
  destruct (store_slot_raises stored_raises 1 0 false (two_grouped 100)
              raise_exception [] Exception) as (w' & E & Hp & He & Ho).
  - reflexivity.
  - reflexivity.
  - repeat split; try reflexivity; try (vm_compute; discriminate).
    eexists. vm_compute. reflexivity.
  - exists w'. split; [exact E|]. split.
    { unfold count. rewrite (pushed_states _ _ _ Hp). vm_compute. reflexivity. }
    split; [|exact He]. rewrite Ho by discriminate. vm_compute. reflexivity.
Defined.

(** ** Restore on a tracker of its own *)

Lemma write_snapshot_heap self index w r w' :
  write_snapshot self index w = (r, w') -> exists h, w' = set_heap h w.
Proof.
  unfold write_snapshot. unfold bind, get_memento.
  destruct (py_index _ _); [apply restore_items_heap|].
  intros [= <- <-]. exists (heap w). by rewrite set_heap_id.
Qed.

Lemma window_ungrouped restore_ self index w :
  ungrouped self w ->
  restore_window restore_ self index w = write_snapshot self index w.
Proof.
  intros Hu. unfold restore_window, write_snapshot. unfold bind at 1 3, get_memento.
  destruct (py_index _ _) as [snap|]; [|done].
  unfold bind. destruct (for_each _ _ w) as [[[]|e|] w1] eqn:E; try done.
  apply restore_items_heap in E as [h ->].
  by rewrite with_sync_group_ungrouped.
Qed.

Lemma restore_ungrouped_alone fuel self index w :
  ungrouped self w ->
  restore (S (S fuel)) self index w = restore_alone self index w.
Proof.
  intros Hu. rewrite restore_unfold. unfold restore_alone, defer_with.
  unfold bind at 1 2 5. unfold put_defer at 1 3.
  set (w1 := set_mementos _ w).
  unfold bind at 1 3. rewrite window_ungrouped by done.
  destruct (write_snapshot self index w1) as [[[]|e|] w2] eqn:E; try done.
  apply write_snapshot_heap in E as [h ->].
  unfold bind at 1 3. unfold put_defer.
  rewrite store_ungrouped by done. reflexivity.
Qed.

Lemma py_index_negative {A} (l : list A) (index : Z) :
  (- Z.of_nat (length l) <= index < 0)%Z ->
  py_index l index = py_index l (Z.of_nat (length l) + index).
Proof.
  intros H. unfold py_index.
  rewrite (bool_decide_eq_false_2 (0 <= index)%Z) by lia.
  rewrite bool_decide_eq_true_2 by lia.
  by rewrite bool_decide_eq_true_2 by lia.
Qed.

Lemma restore_alone_eq self index w :
  restore_alone self index w =
  (write_snapshot self index >> put_defer self false >> store_steps self false >>
   emit (Restored self)) (put_defer self true w).2.
Proof. reflexivity. Qed.

(** X11. On an ungrouped tracker a negative index counts from the oldest
    entry, as Python's list indexing does: for [-count() <= index < 0],
    [restore(index)] is [restore(count() + index)]. *)
Theorem restore_negative_index fuel self index w :
  ungrouped self w ->
  (- Z.of_nat (count (mementos w self)) <= index < 0)%Z ->
  restore (S (S fuel)) self index w =
  restore (S (S fuel)) self (Z.of_nat (count (mementos w self)) + index) w.
Proof.
  intros Hu Hi. rewrite !restore_ungrouped_alone by done.
  rewrite !restore_alone_eq. set (w1 := (put_defer self true w).2).
  assert (Hws : write_snapshot self index w1 =
                write_snapshot self (Z.of_nat (count (mementos w self)) + index) w1).
  { unfold write_snapshot, bind, get_memento, w1. simpl. rewrite fn_lookup_insert.
    simpl. by rewrite py_index_negative. }
  unfold bind at 1. by rewrite Hws.
Qed.

Lemma restore_negative_index_witness :
  restore 2 0 (-1) three_stored = restore 2 0 2 three_stored.
Proof.
  apply (restore_negative_index 0 0 (-1) three_stored).
  - constructor.
  - replace (count (mementos three_stored 0)) with 3 by (vm_compute; reflexivity). lia.
Defined.

Lemma items_key_error snap items : forall w,
  Forall (fun item => _ItemToRecord._set_is_callable item = false /\
                      is_Some (heap w !! _ItemToRecord._target item)) items ->
  Exists (fun item => snap !! _ItemToRecord.label item = None) items ->
  exists h, for_each items (restore_item snap) w = (Raise KeyError, set_heap h w).
Proof.
  induction items as [|item items IH]; intros w Hall Hex.
  - by apply Exists_nil in Hex.
  - apply list.Forall_cons in Hall as [[Hs [o Ho]] Hall].
    cbn [for_each]. unfold bind, restore_item at 1.
    destruct (snap !! _ItemToRecord.label item) as [v|] eqn:Hv.
    + apply Exists_cons in Hex as [Hex|Hex]; [congruence|].
      unfold _ItemToRecord.set. unfold _ItemToRecord._set_is_callable in Hs.
      destruct (_ItemToRecord._setter item); [|done]. rewrite Ho.
      destruct (IH (set_heap (<[_ItemToRecord._target item :=
                                 setattr o (_ItemToRecord.label item) v]> (heap w)) w))
        as [h Hh]; [|done|].
      * eapply list.Forall_impl; [exact Hall|]. intros it [? [o' Ho']]. split; [done|].
        simpl. destruct (decide (_ItemToRecord._target it = _ItemToRecord._target item))
          as [->|Hne]; [by rewrite lookup_insert_eq|by rewrite lookup_insert_ne].
      * exists h. by rewrite Hh, set_heap_twice.
    + exists (heap w). by rewrite set_heap_id.
Qed.

(** X12. [restore] of a snapshot that lacks the label of a binding (one
    registered after the snapshot was taken) raises [KeyError], the bindings
    being attributes of live objects; the deferral flag of the tracker is left
    set, the history is as it was and no signal is emitted. *)
Theorem restore_key_error fuel self index w snap :
  py_index (_states (mementos w self)) index = Some snap ->
  Forall (fun item => _ItemToRecord._set_is_callable item = false /\
                      is_Some (heap w !! _ItemToRecord._target item))
         (_items_to_record (mementos w self)) ->
  Exists (fun item => snap !! _ItemToRecord.label item = None)
         (_items_to_record (mementos w self)) ->
  exists w',
    restore (S fuel) self index w = (Raise KeyError, w') /\
    _defer (mementos w' self) = true /\
    _states (mementos w' self) = _states (mementos w self) /\
    events w' = events w.
Proof.
  intros Hi Hall Hex. rewrite restore_unfold. unfold defer_with.
  unfold bind at 1 2. unfold put_defer at 1. set (w1 := set_mementos _ w).
  unfold bind at 1. unfold restore_window. unfold bind at 1, get_memento.
  subst w1. cbn [mementos set_mementos]. rewrite fn_lookup_insert.
  cbn [_states set_defer _items_to_record]. rewrite Hi.
  set (w1 := set_mementos _ w).
  destruct (items_key_error snap (_items_to_record (mementos w self)) w1) as [h Hh];
    [done|done|].
  unfold bind at 1. rewrite Hh. eexists. split; [done|]. simpl.
  by rewrite fn_lookup_insert.
Qed.

Lemma restore_key_error_witness :
  exists w',
    restore 1 0 0 late_binding = (Raise KeyError, w') /\
    _defer (mementos w' 0) = true.
Proof.
  destruct (restore_key_error 0 0 0 late_binding (<["foo" := VInt 1]> ∅))
    as (w' & E & Hd & _).
  - vm_compute. reflexivity.
  - vm_compute. repeat constructor; eexists; reflexivity.
  - vm_compute. right. left. reflexivity.
  - exists w'. split; [exact E|exact Hd].
Defined.

Lemma store_steps_events self ser w w' :
  store_steps self ser w = (Ok tt, w') ->
  _defer (mementos w self) = false ->
  events w' = events w ++ [Stored self] /\ _defer (mementos w' self) = false.
Proof.
  intros E Hd. pose proof (store_steps_frame _ _ _ _ _ E) as HF.
  split; [|by rewrite (sb_defer _ _ _ HF)].
  revert E. unfold store_steps. unfold_monad.
  rewrite Hd. destruct (target_truth _) eqn:Ht; [|done]. simpl.
  destruct (take_snapshot _ _ _) as [s| |] eqn:Hs; [|done|done].
  destruct (_ || _).
  - unfold serialise, bind, get_memento, raise. simpl.
    rewrite fn_lookup_insert. simpl.
    destruct (negb _); [done|].
    destruct (push_state _ _ _) eqn:Hp; [done|].
    by intros [= <-].
  - by intros [= <-].
Qed.

(** What a successful [restore] of an ungrouped tracker leaves. *)
Lemma restore_alone_inv self index w w' :
  restore_alone self index w = (Ok tt, w') ->
  exists snap s,
    py_index (_states (mementos w self)) index = Some snap /\
    take_snapshot (_items_to_record (mementos w self)) (heap w') ∅ = Ok s /\
    _states (mementos w' self) =
      push_state (_max_states (mementos w self)) s (_states (mementos w self)) /\
    _defer (mementos w' self) = false /\
    events w' = events w ++ [Stored self; Restored self].
Proof.
  rewrite restore_alone_eq. set (w1 := (put_defer self true w).2).
  unfold bind at 1. destruct (write_snapshot self index w1) as [[[]|e|] w2] eqn:E; try done.
  pose proof E as E'. apply write_snapshot_heap in E' as [h ->].
  unfold bind at 1. unfold put_defer.
  set (w3 := set_mementos _ (set_heap h w1)).
  unfold bind. destruct (store_steps self false w3) as [[[]|e|] w4] eqn:E4; try done.
  unfold emit. intros [= <-].
  assert (Hd : _defer (mementos w3 self) = false)
    by (unfold w3; simpl; by rewrite fn_lookup_insert).
  destruct (store_steps_inv _ _ _ _ E4 Hd) as (s & Hs & _ & Hst).
  destruct (store_steps_events _ _ _ _ E4 Hd) as [Hev Hd'].
  pose proof (store_steps_frame _ _ _ _ _ E4) as HF.
  revert E. unfold write_snapshot. unfold bind, get_memento. unfold w1 at 1 2.
  cbn [mementos set_mementos put_defer snd]. rewrite fn_lookup_insert.
  cbn [_states set_defer _items_to_record].
  destruct (py_index _ _) as [snap|] eqn:Hi; [|done].
  intros _. exists snap, s. split; [done|].
  revert Hs Hst. unfold w3, w1. cbn [mementos set_mementos heap set_heap put_defer snd].
  rewrite !fn_lookup_insert. cbn [_states set_defer _items_to_record _max_states].
  intros Hs Hst. cbn [heap set_events]. rewrite (sb_heap _ _ _ HF).
  split; [done|]. split; [done|]. split; [done|].
  simpl. rewrite Hev. simpl. by rewrite <- app_assoc.
Qed.

(** X13. With nothing connected to the signals, on an ungrouped tracker
    whose bindings are read and written by attribute name, a [restore] that
    returns removes nothing from the history: it pushes one snapshot, that of
    the objects as the restore left them, on the history as it was (the usual
    eviction applying), and emits [stored] then [restored]. *)
Theorem restore_keeps_history s fuel self index w w' :
  no_slots s ->
  ungrouped self w ->
  attribute_accessors (mementos w self) ->
  restore_with s (S (S fuel)) self index w = (Ok tt, w') ->
  exists snap s,
    py_index (_states (mementos w self)) index = Some snap /\
    take_snapshot (_items_to_record (mementos w self)) (heap w') ∅ = Ok s /\
    _states (mementos w' self) =
      push_state (_max_states (mementos w self)) s (_states (mementos w self)) /\
    events w' = events w ++ [Stored self; Restored self].
Proof.
  intros Hs Hu _. rewrite restore_with_eq by done.
  rewrite restore_ungrouped_alone by done. intros E.
  destruct (restore_alone_inv _ _ _ _ E) as (snap & s0 & H1 & H2 & H3 & _ & H4).
  by exists snap, s0.
Qed.

Lemma restore_keeps_history_witness :
  exists s,
    _states (mementos (after (restore_with quiet 2 0 1) three_stored) 0) =
      s :: _states (mementos three_stored 0) /\
    events (after (restore_with quiet 2 0 1) three_stored) =
      events three_stored ++ [Stored 0; Restored 0].
Proof.
  destruct (restore_keeps_history quiet 0 0 1 three_stored
              (after (restore_with quiet 2 0 1) three_stored))
    as (snap & s & _ & _ & Hst & Hev).
  - apply no_slots_quiet.
  - constructor.
  - split; vm_compute; by repeat constructor.
  - apply run_ok. vm_compute. reflexivity.
  - exists s. split; [|exact Hev]. rewrite Hst. apply push_state_room. left. reflexivity.
Defined.

(** X14. With nothing connected to the signals, on an ungrouped tracker
    whose bindings are read and written by attribute name and whose cap is 0
    or at least 2: after a [restore] that returned, index 1 names the entry
    that was the newest before the call, so a following [restore(1)] goes
    back to the state before the restore, not one step further into the
    past. *)
Theorem restore_then_index_one s fuel self index w w' s0 rest :
  no_slots s ->
  ungrouped self w ->
  attribute_accessors (mementos w self) ->
  _states (mementos w self) = s0 :: rest ->
  (_max_states (mementos w self) = 0 \/ 2 <= _max_states (mementos w self))%Z ->
  restore_with s (S (S fuel)) self index w = (Ok tt, w') ->
  py_index (_states (mementos w' self)) 1 = Some s0.
Proof.
  intros Hs Hu _ Hst HM. rewrite restore_with_eq by done.
  rewrite restore_ungrouped_alone by done. intros E.
  destruct (restore_alone_inv _ _ _ _ E) as (snap & s1 & _ & _ & H3 & _).
  rewrite H3, Hst. change 1%Z with (Z.of_nat 1). rewrite py_index_nat.
  destruct (decide (_max_states (mementos w self) = 0 \/
                    Z.of_nat (length (s0 :: rest)) < _max_states (mementos w self))%Z)
    as [Hroom|Hfull].
  - by rewrite push_state_room.
  - rewrite push_state_full by lia.
    destruct rest as [|s2 rest]; [simpl in Hfull; lia|done].
Qed.

Lemma restore_then_index_one_witness :
  py_index (_states (mementos (after (restore_with quiet 2 0 1) three_stored) 0)) 1 =
  Some (<["foo" := VInt 30]> ∅).
Proof.
  apply (restore_then_index_one quiet 0 0 1 three_stored _ _
           [<["foo" := VInt 20]> ∅; <["foo" := VInt 10]> ∅]).
  - apply no_slots_quiet.
  - constructor.
  - split; vm_compute; by repeat constructor.
  - vm_compute. reflexivity.
  - left. reflexivity.
  - apply run_ok. vm_compute. reflexivity.
Defined.

Lemma restore_items_getattr t snap items : forall w r w',
  Forall (fun item => _ItemToRecord._target item = t /\
                      _ItemToRecord._set_is_callable item = false) items ->
  for_each items (restore_item snap) w = (r, w') ->
  forall p l, p <> t \/ l ∉ (_ItemToRecord.label <$> items) ->
              getattr (heap w') p l = getattr (heap w) p l.
Proof.
  induction items as [|item items IH]; intros w r w' Hall.
  - by intros [= <- <-].
  - apply list.Forall_cons in Hall as [[Ht Hs] Hall].
    cbn [for_each]. unfold bind, restore_item at 1.
    destruct (snap !! _ItemToRecord.label item) as [v|]; [|by intros [= <- <-]].
    unfold _ItemToRecord.set. unfold _ItemToRecord._set_is_callable in Hs.
    destruct (_ItemToRecord._setter item); [|done]. rewrite Ht.
    destruct (heap w !! t) as [o|] eqn:Ho; [|by intros [= <- <-]].
    intros E p l Hpl. rewrite (IH _ _ _ Hall E).
    + unfold getattr. simpl. destruct (decide (p = t)) as [->|Hne].
      * rewrite lookup_insert_eq, Ho. simpl. apply lookup_insert_ne.
        destruct Hpl as [?|Hl]; [done|]. intros Heq. apply Hl. rewrite fmap_cons, Heq.
        constructor.
      * by rewrite lookup_insert_ne.
    + destruct Hpl as [?|Hl]; [by left|]. right. intros H. apply Hl.
      rewrite fmap_cons. by constructor.
Qed.

(** X15. On an ungrouped tracker whose bindings are attributes of its
    target, [restore] writes nothing but the attributes of the target named by
    the registered labels, whatever its outcome: every other object, and every
    attribute whose name is not a label (an unregistered one among them),
    reads as before. *)
Theorem restore_writes_only_labels fuel self index w r w' :
  ungrouped self w ->
  attribute_bindings (mementos w self) ->
  restore (S (S fuel)) self index w = (r, w') ->
  forall o name,
    o <> _target (mementos w self) \/ name ∉ labels (mementos w self) ->
    getattr (heap w') o name = getattr (heap w) o name.
Proof.
  intros Hu Hall. rewrite restore_ungrouped_alone by done.
  rewrite restore_alone_eq. set (w1 := (put_defer self true w).2).
  intros E o name Hon.
  assert (Hw : forall r2 w2, write_snapshot self index w1 = (r2, w2) ->
               getattr (heap w2) o name = getattr (heap w) o name).
  { unfold write_snapshot, bind, get_memento, w1. simpl. rewrite fn_lookup_insert. simpl.
    destruct (py_index _ _) as [snap|]; [|by intros ? ? [= <- <-]].
    intros r2 w2 E2.
    by apply (restore_items_getattr _ _ _ _ _ _ Hall E2). }
  revert E. unfold bind at 1.
  destruct (write_snapshot self index w1) as [r2 w2] eqn:E2.
  specialize (Hw _ _ eq_refl).
  destruct r2 as [[]|e|]; [|by intros [= <- <-]|by intros [= <- <-]].
  unfold bind at 1. unfold put_defer.
  unfold bind. destruct (store_steps self false _) as [r4 w4] eqn:E4.
  apply store_steps_frame in E4. pose proof (sb_heap _ _ _ E4) as Hh. simpl in Hh.
  destruct r4 as [[]|e|]; intros [= <- <-]; simpl; by rewrite Hh.
Qed.

Lemma restore_writes_only_labels_witness :
  getattr (heap (after (restore 2 0 1) three_stored)) 1 "foo" =
  getattr (heap three_stored) 1 "foo".
Proof.
  apply (restore_writes_only_labels 0 0 1 three_stored
           (restore 2 0 1 three_stored).1 (after (restore 2 0 1) three_stored)).
  - constructor.
  - vm_compute. repeat constructor.
  - unfold after. by destruct (restore 2 0 1 three_stored).
  - left. vm_compute. discriminate.
Defined.

(** ** Groups *)

Lemma find_app_none {A} (f : A -> bool) (l l' : list A) :
  List.find f l = None -> List.find f (l ++ l') = List.find f l'.
Proof.
  induction l as [|x l IH]; [done|]. simpl. destruct (f x); [done|]. apply IH.
Qed.

Lemma group_loop_find groups self other :
  match List.find (fun g => bool_decide (self ∈ g)) groups with
  | Some g =>
      exists groups',
        group_loop groups self other = Some groups' /\
        List.find (fun g => bool_decide (self ∈ g)) groups' =
          Some (if bool_decide (other ∈ g) then g else g ++ [other]) /\
        group_loop groups' self other = Some groups'
  | None => group_loop groups self other = None
  end.
Proof.
  induction groups as [|g groups IH]; [done|].
  cbn [List.find group_loop]. case_bool_decide as Hs.
  - eexists. split; [done|]. case_bool_decide as Ho.
    + cbn [List.find group_loop]. rewrite !bool_decide_eq_true_2 by done. done.
    + cbn [List.find group_loop].
      rewrite (bool_decide_eq_true_2 (self ∈ g ++ [other]))
        by (apply elem_of_app; by left).
      rewrite (bool_decide_eq_true_2 (other ∈ g ++ [other]))
        by (apply elem_of_app; right; constructor).
      done.
  - destruct (List.find _ groups) as [g0|].
    + destruct IH as (groups' & -> & Hf & Hi). eexists. split; [done|].
      cbn [List.find group_loop fmap option_fmap option_map].
      rewrite !bool_decide_eq_false_2 by done. rewrite Hf, Hi. done.
    + by rewrite IH.
Qed.

Lemma sync_group_find self w :
  sync_group self w =
  default [self] (List.find (fun g => bool_decide (self ∈ g)) (_SYNC_GROUPS w)).
Proof. unfold sync_group. by destruct (List.find _ _). Qed.

(** What [group] makes of the caller's group. *)
Lemma group_sync_group self other w :
  (group self other w).1 = Ok tt /\
  sync_group self (after (group self other) w) =
    match List.find (fun g => bool_decide (self ∈ g)) (_SYNC_GROUPS w) with
    | Some g => if bool_decide (other ∈ g) then g else g ++ [other]
    | None => [self; other]
    end.
Proof.
  unfold after, group. rewrite sync_group_find.
  pose proof (group_loop_find (_SYNC_GROUPS w) self other) as H.
  destruct (List.find _ (_SYNC_GROUPS w)) as [g|] eqn:Hf.
  - destruct H as (groups' & -> & Hf' & _). simpl. by rewrite Hf'.
  - rewrite H. simpl. rewrite find_app_none by done. simpl.
    rewrite bool_decide_eq_true_2 by constructor. done.
Qed.

(** X16. [group] always returns; afterwards [other] is in the caller's
    group, and every member the caller's group had is still in it. *)
Theorem group_joins self other w :
  (group self other w).1 = Ok tt /\
  other ∈ sync_group self (after (group self other) w) /\
  (forall member, member ∈ sync_group self w ->
                  member ∈ sync_group self (after (group self other) w)).
Proof.
  destruct (group_sync_group self other w) as [Hr ->]. split; [done|].
  rewrite sync_group_find.
  destruct (List.find _ (_SYNC_GROUPS w)) as [g|]; simpl.
  - case_bool_decide as Ho; split; try done.
    + apply elem_of_app. right. constructor.
    + intros m Hm. apply elem_of_app. by left.
  - split; [do 2 constructor|]. intros m Hm. apply list_elem_of_singleton in Hm as ->.
    constructor.
Qed.

(** X17. [group] is idempotent: grouping the same tracker a second time
    changes nothing. *)
Theorem group_idempotent self other w :
  (group self other >> group self other) w = group self other w.
Proof.
  unfold bind, group.
  pose proof (group_loop_find (_SYNC_GROUPS w) self other) as H.
  destruct (List.find _ (_SYNC_GROUPS w)) as [g|] eqn:Hf.
  - destruct H as (groups' & -> & _ & Hi). simpl. by rewrite Hi.
  - rewrite H. simpl.
    pose proof (group_loop_find (_SYNC_GROUPS w ++ [[self; other]]) self other) as H2.
    rewrite find_app_none in H2 by done. simpl in H2.
    rewrite bool_decide_eq_true_2 in H2 by constructor.
    destruct H2 as (groups' & Hg & Hf2 & _).
    assert (Hsame : groups' = _SYNC_GROUPS w ++ [[self; other]]).
    { revert Hg H. clear. generalize (_SYNC_GROUPS w). intros l. revert groups'.
      induction l as [|g l IH]; intros groups'.
      - simpl. rewrite bool_decide_eq_true_2 by constructor.
        rewrite bool_decide_eq_true_2 by (do 2 constructor). by intros [= <-].
      - simpl. case_bool_decide; [done|].
        destruct (group_loop (l ++ _) self other) as [l'|] eqn:E; [|done].
        intros [= <-] Hn. f_equal. apply IH; [done|].
        by destruct (group_loop l self other). }
    rewrite Hg, Hsame. done.
Qed.

(** ** The guard *)

Lemma store_groups fuel p ser w r w' :
  store fuel p ser w = (r, w') -> _SYNC_GROUPS w' = _SYNC_GROUPS w.
Proof.
  apply (store_frame (fun w w' => _SYNC_GROUPS w' = _SYNC_GROUPS w)); try done.
  - intros x y z H1 H2. by rewrite H2.
  - intros p' ser' w0 r0 w0' H. by apply store_steps_frame with (self := p') in H as [].
Qed.

Lemma restore_groups fuel p index w r w' :
  restore fuel p index w = (r, w') -> _SYNC_GROUPS w' = _SYNC_GROUPS w.
Proof.
  apply (restore_frame (fun w w' => _SYNC_GROUPS w' = _SYNC_GROUPS w)); try done.
  - intros x y z H1 H2. by rewrite H2.
  - intros p' ser' w0 r0 w0' H. by apply store_steps_frame with (self := p') in H as [].
Qed.

(** A propagation started with the guard free ends with the guard free. *)
Lemma with_sync_group_released self (body : nat -> M unit) w r w' :
  _ACTIVELY_PROCESSING w = [] ->
  (forall p w0 r0 w0', p ∈ _ACTIVELY_PROCESSING w0 -> body p w0 = (r0, w0') ->
                       _ACTIVELY_PROCESSING w0' = _ACTIVELY_PROCESSING w0) ->
  with_sync_group self (fun sync_group => for_each sync_group body) w = (r, w') ->
  _ACTIVELY_PROCESSING w' = [].
Proof.
  intros Hact Hbody. unfold with_sync_group, _SyncGroupPropogation.__enter__.
  rewrite Hact. rewrite bool_decide_eq_false_2 by apply not_elem_of_nil. simpl app.
  set (g := sync_group self w).
  destruct (for_each _ _ (set_active g w)) as [r2 w2] eqn:E2.
  assert (Hk : _ACTIVELY_PROCESSING w2 = g).
  { assert (Hgen : forall peers w0 r0 w0',
              (forall p, p ∈ peers -> p ∈ _ACTIVELY_PROCESSING w0) ->
              for_each peers body w0 = (r0, w0') ->
              _ACTIVELY_PROCESSING w0' = _ACTIVELY_PROCESSING w0).
    { induction peers as [|p peers IH]; intros w0 r0 w0' Hp.
      - by intros [= <- <-].
      - cbn [for_each]. unfold bind. destruct (body p w0) as [r1 w1] eqn:E1.
        apply Hbody in E1; [|apply Hp; constructor].
        destruct r1 as [[]|e|]; [|by intros [= <- <-]|by intros [= <- <-]].
        intros E. apply IH in E; [congruence|].
        intros q Hq. rewrite E1. apply Hp. by constructor. }
    apply Hgen in E2; [done|].
    intros p Hp. by apply list_elem_of_filter in Hp as [_ Hp]. }
  rewrite (exit_spec g [] w2); [|intros; apply not_elem_of_nil|done].
  by intros [= <- <-].
Qed.

Lemma store_in_active_keeps fuel p ser w r w' :
  p ∈ _ACTIVELY_PROCESSING w ->
  store fuel p ser w = (r, w') ->
  _ACTIVELY_PROCESSING w' = _ACTIVELY_PROCESSING w.
Proof.
  intros Hin. destruct fuel as [|fuel]; [by intros [= <- <-]|].
  rewrite store_in_active by done. intros E.
  by apply store_steps_frame in E as [].
Qed.

Lemma store_released fuel self ser w r w' :
  _ACTIVELY_PROCESSING w = [] ->
  store fuel self ser w = (r, w') ->
  _ACTIVELY_PROCESSING w' = [].
Proof.
  intros Hact. destruct fuel as [|fuel]; [by intros [= <- <-]|].
  rewrite store_unfold. destruct (_defer _); [by intros [= <- <-]|].
  unfold bind. destruct (store_steps self ser w) as [r1 w1] eqn:E1.
  apply store_steps_frame in E1. pose proof (sb_active _ _ _ E1) as Ha.
  destruct r1 as [[]|e|]; [|intros [= <- <-]; congruence|intros [= <- <-]; congruence].
  unfold propagate_store. apply with_sync_group_released; [congruence|].
  intros p w0 r0 w0'. apply store_in_active_keeps.
Qed.

Lemma restore_released fuel self index w r w' :
  _ACTIVELY_PROCESSING w = [] ->
  restore fuel self index w = (r, w') ->
  _ACTIVELY_PROCESSING w' = [].
Proof.
  intros Hact. destruct fuel as [|fuel]; [by intros [= <- <-]|].
  rewrite restore_unfold. unfold defer_with.
  unfold bind at 1 2. unfold put_defer at 1. set (w1 := set_mementos _ w).
  unfold bind at 1.
  destruct (restore_window (restore fuel) self index w1) as [r2 w2] eqn:E2.
  assert (H2 : _ACTIVELY_PROCESSING w2 = []).
  { revert E2. unfold restore_window. unfold bind at 1, get_memento.
    destruct (py_index _ _) as [snap|]; [|by intros [= <- <-]].
    unfold bind. destruct (for_each _ _ w1) as [r3 w3] eqn:E3.
    apply restore_items_heap in E3 as [h ->].
    destruct r3 as [[]|e|]; [|by intros [= <- <-]|by intros [= <- <-]].
    apply with_sync_group_released; [done|].
    intros p w0 r0 w0'. apply restore_in_active_keeps. }
  destruct r2 as [[]|e|]; [|by intros [= <- <-]|by intros [= <- <-]].
  unfold bind at 1. unfold put_defer. set (w3 := set_mementos _ w2).
  unfold bind. destruct (store fuel self false w3) as [r4 w4] eqn:E4.
  apply store_released in E4; [|done].
  destruct r4 as [[]|e|]; by intros [= <- <-].
Qed.

(** X18. The guard is released on every way out: started with no
    propagation in flight, [store] and [restore] end with
    [_ACTIVELY_PROCESSING] empty and [_SYNC_GROUPS] as it was, whether they
    return or raise. *)
Theorem guard_released fuel self ser index w :
  _ACTIVELY_PROCESSING w = [] ->
  (_ACTIVELY_PROCESSING (after (store fuel self ser) w) = [] /\
   _SYNC_GROUPS (after (store fuel self ser) w) = _SYNC_GROUPS w) /\
  (_ACTIVELY_PROCESSING (after (restore fuel self index) w) = [] /\
   _SYNC_GROUPS (after (restore fuel self index) w) = _SYNC_GROUPS w).
Proof.
  intros Hact. unfold after. split.
  - destruct (store fuel self ser w) as [r w'] eqn:E. simpl. split.
    + by apply store_released in E.
    + by apply store_groups in E.
  - destruct (restore fuel self index w) as [r w'] eqn:E. simpl. split.
    + by apply restore_released in E.
    + by apply restore_groups in E.
Qed.

Lemma guard_released_witness :
  _ACTIVELY_PROCESSING (after (store 2 0 false) with_history) = [] /\
  _ACTIVELY_PROCESSING (after (restore 3 0 0) with_history) = [].
Proof.
  destruct (guard_released 3 0 false 0 with_history) as [_ [Hr _]]; [reflexivity|].
  destruct (guard_released 2 0 false 0 with_history) as [[Hs _] _]; [reflexivity|].
  split; [exact Hs|exact Hr].
Defined.

(** ** Windows *)

Lemma stores_deferred fuel self steps : forall w,
  _defer (mementos w self) = true ->
  stores (S fuel) self steps w =
  (Ok tt, set_heap (default (heap w) (fst <$> list.last steps)) w).
Proof.
  induction steps as [|[h ser] steps IH]; intros w Hd.
  - simpl. unfold ret. by rewrite set_heap_id.
  - cbn [stores]. unfold bind at 1, mutate at 1. unfold bind at 1.
    rewrite store_unfold. cbn [mementos set_heap]. rewrite Hd.
    rewrite IH by done. rewrite set_heap_twice. do 2 f_equal.
    destruct steps as [|[h' ser'] steps]; [done|]. change (list.last ((h, ser) :: (h', ser') :: steps))
      with (list.last ((h', ser') :: steps)).
    destruct (list.last ((h', ser') :: steps)) as [x|] eqn:E; [done|].
    by apply last_None in E.
Qed.

(** X19. Inside an [omit] window every [store] on the tracker is skipped,
    and leaving the window stores nothing: after a body of stores the history
    and the signals are as before, the objects are as the body left them, and
    the deferral flag is cleared. *)
Theorem omit_skips_stores fuel self steps w :
  exists w',
    omit self (stores (S fuel) self steps) w = (Ok tt, w') /\
    mementos w' self = set_defer false (mementos w self) /\
    (forall p, p <> self -> mementos w' p = mementos w p) /\
    heap w' = default (heap w) (fst <$> list.last steps) /\
    events w' = events w.
Proof.
  unfold omit. unfold bind at 1. unfold put_defer at 1. set (w1 := set_mementos _ w).
  unfold bind at 1. rewrite stores_deferred
    by (unfold w1; simpl; by rewrite fn_lookup_insert).
  unfold put_defer. eexists. split; [done|]. simpl. rewrite !fn_lookup_insert.
  split; [by apply memento_ext|]. split; [|done].
  intros p Hp. by rewrite !fn_lookup_insert_ne.
Qed.

(** X20. Windows do not nest: leaving an inner [omit] window clears the
    deferral flag, so a [store] made afterwards, still inside the outer
    window, is performed and pushes its snapshot. *)
Theorem nested_window_stores fuel self inner w w1 :
  inner (put_defer self true (put_defer self true w).2).2 = (Ok tt, w1) ->
  _ACTIVELY_PROCESSING w1 = [] ->
  can_store false (put_defer self false w1).2 self ->
  exists r w',
    omit self (omit self inner >> store (S (S fuel)) self false) w = (r, w') /\
    r <> OutOfFuel /\
    _states (mementos w' self) =
      push_state (_max_states (mementos w1 self))
        (snapshot_of (put_defer self false w1).2 self) (_states (mementos w1 self)).
Proof.
  intros Hin Hact Hcan.
  destruct (store_top_self fuel false self (put_defer self false w1).2)
    as (r & w' & E & Hr & Hp & _); [done|done|].
  apply pushed_states in Hp. revert Hp. cbn [put_defer snd mementos set_mementos].
  rewrite fn_lookup_insert. cbn [_max_states _states set_defer]. intros Hp.
  rewrite <- Hp. clear Hp Hcan.
  unfold omit, bind. unfold put_defer in *. cbn [snd] in *. rewrite Hin, E.
  destruct r as [[]|e|]; [|by exists (Raise e), w'|done].
  eexists _, _. split; [done|]. split; [done|]. simpl. rewrite fn_lookup_insert.
  simpl. done.
Qed.

Lemma nested_window_stores_witness :
  exists r w',
    omit 0 (omit 0 (set_foo 0 5) >> store 2 0 false) one_binding = (r, w') /\
    r <> OutOfFuel /\
    count (mementos w' 0) = 1.
Proof.
  destruct (nested_window_stores 0 0 (set_foo 0 5) one_binding
              (after (set_foo 0 5) (put_defer 0 true (put_defer 0 true one_binding).2).2))
    as (r & w' & E & Hr & Hst).
  - reflexivity.
  - reflexivity.
  - repeat split; try reflexivity; try (vm_compute; discriminate).
    eexists. vm_compute. reflexivity.
  - exists r, w'. split; [exact E|]. split; [exact Hr|].
    unfold count. rewrite Hst. reflexivity.
Defined.

(** ** Persistence *)

Lemma restore_items_attrs t snap items : forall w o,
  Forall (fun item => _ItemToRecord._target item = t /\
                      _ItemToRecord._set_is_callable item = false) items ->
  (forall item, item ∈ items -> is_Some (snap !! _ItemToRecord.label item)) ->
  heap w !! t = Some o ->
  exists o',
    for_each items (restore_item snap) w = (Ok tt, set_heap (<[t := o']> (heap w)) w) /\
    truth o' = truth o /\
    (forall item, item ∈ items ->
       attrs o' !! _ItemToRecord.label item = snap !! _ItemToRecord.label item) /\
    (forall l, l ∉ (_ItemToRecord.label <$> items) -> attrs o' !! l = attrs o !! l).
Proof.
  induction items as [|item items IH]; intros w o Hall Hin Ho.
  - exists o. simpl. unfold ret. rewrite insert_id by done. rewrite set_heap_id.
    split; [done|]. split; [done|]. split; [|done]. intros item H.
    by apply elem_of_nil in H.
  - apply list.Forall_cons in Hall as [[Ht Hs] Hall].
    destruct (Hin item) as [v Hv]; [constructor|].
    cbn [for_each]. unfold bind, restore_item at 1. rewrite Hv.
    unfold _ItemToRecord.set. unfold _ItemToRecord._set_is_callable in Hs.
    destruct (_ItemToRecord._setter item); [|done]. rewrite Ht, Ho.
    set (o1 := setattr o (_ItemToRecord.label item) v).
    destruct (IH (set_heap (<[t := o1]> (heap w)) w) o1) as (o' & E & Htr & Hl & Hn).
    { done. }
    { intros it Hit. apply Hin. by constructor. }
    { simpl. by rewrite lookup_insert_eq. }
    exists o'. rewrite E. simpl. rewrite insert_insert_eq, set_heap_twice.
    split; [done|]. split; [done|]. split.
    + intros it Hit. apply elem_of_cons in Hit as [->|Hit]; [|by apply Hl].
      destruct (decide (_ItemToRecord.label item ∈ _ItemToRecord.label <$> items))
        as [Hd|Hd].
      * apply list_elem_of_fmap in Hd as (it & Heq & Hit). rewrite Heq. by apply Hl.
      * rewrite Hn by done. unfold o1. simpl. by rewrite lookup_insert_eq.
    + intros l Hl'. apply not_elem_of_cons in Hl' as [Hne Hl'].
      rewrite (Hn l Hl'). unfold o1. simpl. by rewrite lookup_insert_ne.
Qed.

Lemma write_snapshot_deferred self index w :
  write_snapshot self index (put_defer self true w).2 =
  match py_index (_states (mementos w self)) index with
  | Some snap =>
      for_each (_items_to_record (mementos w self)) (restore_item snap)
        (put_defer self true w).2
  | None => (Raise IndexError, (put_defer self true w).2)
  end.
Proof.
  unfold write_snapshot, bind, get_memento. simpl. rewrite fn_lookup_insert. simpl.
  by destruct (py_index _ _).
Qed.

(** [restore] on a tracker of its own whose bindings are attributes the
    snapshot holds: every label is assigned from the snapshot. *)
Lemma restore_alone_attrs self index w snap o :
  py_index (_states (mementos w self)) index = Some snap ->
  attribute_bindings (mementos w self) ->
  (forall item, item ∈ _items_to_record (mementos w self) ->
     is_Some (snap !! _ItemToRecord.label item)) ->
  heap w !! _target (mementos w self) = Some o ->
  exists r w' o',
    restore_alone self index w = (r, w') /\
    r <> OutOfFuel /\
    heap w' = <[_target (mementos w self) := o']> (heap w) /\
    truth o' = truth o /\
    (forall item, item ∈ _items_to_record (mementos w self) ->
       attrs o' !! _ItemToRecord.label item = snap !! _ItemToRecord.label item) /\
    (forall l, l ∉ labels (mementos w self) -> attrs o' !! l = attrs o !! l) /\
    (r = Ok tt ->
     exists s,
       take_snapshot (_items_to_record (mementos w self)) (heap w') ∅ = Ok s /\
       _states (mementos w' self) =
         push_state (_max_states (mementos w self)) s (_states (mementos w self))).
Proof.
  intros Hi Hall Hin Ho.
  destruct (restore_alone self index w) as [r w'] eqn:E.
  assert (Hinv := restore_alone_inv self index w w').
  destruct (restore_items_attrs (_target (mementos w self)) snap
              (_items_to_record (mementos w self)) (put_defer self true w).2 o Hall Hin Ho)
    as (o' & E1 & Htr & Hl & Hn).
  assert (Hws : write_snapshot self index (put_defer self true w).2 =
                (Ok tt, set_heap (<[_target (mementos w self) := o']> (heap w))
                          (put_defer self true w).2)).
  { rewrite write_snapshot_deferred, Hi. exact E1. }
  pose proof E as E0.
  revert E. rewrite restore_alone_eq. unfold bind at 1. rewrite Hws.
  unfold bind at 1. unfold put_defer at 1.
  set (w3 := set_mementos _ (set_heap _ _)).
  unfold bind. pose proof (store_steps_fuel self false w3) as Hf.
  destruct (store_steps self false w3) as [r4 w4] eqn:E4.
  apply store_steps_frame in E4. pose proof (sb_heap _ _ _ E4) as Hh. simpl in Hh.
  intros E. exists r, w', o'.
  assert (Hheap : heap w' = <[_target (mementos w self) := o']> (heap w)).
  { destruct r4 as [[]|e|]; injection E as <- <-; simpl; by rewrite Hh. }
  assert (Hr : r <> OutOfFuel).
  { destruct r4 as [[]|e|]; injection E as <- <-; done. }
  split; [done|]. split; [done|]. split; [done|]. split; [done|]. split; [done|].
  split; [done|]. intros ->.
  destruct (Hinv E0) as (snap' & s & _ & Hs & Hst & _). by exists s.
Qed.

(** [deserialise] on a tracker of its own whose backend holds a snapshot
    that is not empty. *)
Lemma deserialise_ungrouped fuel self w d o :
  ungrouped self w ->
  _serialiser (mementos w self) = true ->
  disk w !! _serialisation_identifier (mementos w self) = Some d ->
  d <> ∅ ->
  attribute_bindings (mementos w self) ->
  (forall item, item ∈ _items_to_record (mementos w self) ->
     is_Some (d !! _ItemToRecord.label item)) ->
  heap w !! _target (mementos w self) = Some o ->
  exists r w' o',
    deserialise (S (S fuel)) self w = (r, w') /\
    r <> OutOfFuel /\
    heap w' = <[_target (mementos w self) := o']> (heap w) /\
    truth o' = truth o /\
    (forall item, item ∈ _items_to_record (mementos w self) ->
       attrs o' !! _ItemToRecord.label item = d !! _ItemToRecord.label item) /\
    (forall l, l ∉ labels (mementos w self) -> attrs o' !! l = attrs o !! l) /\
    (r = Ok tt ->
     exists s,
       _states (mementos w' self) =
         push_state (_max_states (mementos w self)) s (d :: _states (mementos w self))).
Proof.
  intros Hu Hser Hd Hne Hall Hin Ho.
  unfold deserialise. unfold bind at 1, get_memento at 1. rewrite Hser. cbn [negb].
  cbv beta iota. rewrite Hd. rewrite bool_decide_eq_true_2 by done.
  unfold bind. unfold put_memento.
  set (w2 := set_mementos _ w).
  assert (Hm : mementos w2 self =
               set_states (d :: _states (mementos w self)) (mementos w self))
    by (unfold w2; simpl; by rewrite fn_lookup_insert).
  rewrite restore_ungrouped_alone by done.
  destruct (restore_alone_attrs self 0 w2 d o) as (r & w' & o' & E & Hr & Hh & Htr & Hl & Hn & Hok);
    rewrite ?Hm; try done.
  exists r, w', o'. rewrite Hm in *. simpl in *.
  split; [done|]. split; [done|]. split; [done|]. split; [done|]. split; [done|].
  split; [done|]. intros Hrr. destruct (Hok Hrr) as (s & _ & Hst). by exists s.
Qed.

(** X21. On an ungrouped tracker with an unbounded history whose bindings
    are attributes of its target, a [deserialise] that returns, the backend
    holding a snapshot that is not empty and has every label, adds two
    entries to the history (the loaded snapshot, now at index 1, and the store
    that ends the restore) and leaves every registered attribute of the target
    at the loaded value. *)
Theorem deserialise_adds_two_states fuel self w w' d :
  ungrouped self w ->
  _serialiser (mementos w self) = true ->
  disk w !! _serialisation_identifier (mementos w self) = Some d ->
  d <> ∅ ->
  attribute_bindings (mementos w self) ->
  (forall item, item ∈ _items_to_record (mementos w self) ->
     is_Some (d !! _ItemToRecord.label item)) ->
  is_Some (heap w !! _target (mementos w self)) ->
  _max_states (mementos w self) = 0%Z ->
  deserialise (S (S fuel)) self w = (Ok tt, w') ->
  count (mementos w' self) = 2 + count (mementos w self) /\
  _states (mementos w' self) !! 1 = Some d /\
  forall item, item ∈ _items_to_record (mementos w self) ->
    getattr (heap w') (_target (mementos w self)) (_ItemToRecord.label item) =
    d !! _ItemToRecord.label item.
Proof.
  intros Hu Hser Hd Hne Hall Hin [o Ho] HM E.
  destruct (deserialise_ungrouped fuel self w d o)
    as (r & w2 & o' & E2 & _ & Hh & _ & Hl & _ & Hok); try done.
  rewrite E in E2. injection E2 as <- <-.
  destruct (Hok eq_refl) as (s & Hst). rewrite HM, push_state_room in Hst by auto.
  unfold count. rewrite Hst. split; [done|]. split; [done|].
  intros item Hitem. unfold getattr. rewrite Hh, lookup_insert_eq. by apply Hl.
Qed.

Lemma deserialise_adds_two_states_witness :
  count (mementos (after (deserialise 2 0) (after (store 2 0 true) with_serialiser)) 0) = 3 /\
  getattr (heap (after (deserialise 2 0) (after (store 2 0 true) with_serialiser))) 0 "foo" =
    Some (VInt 1).
Proof.
  destruct (deserialise_adds_two_states 0 0 (after (store 2 0 true) with_serialiser)
              (after (deserialise 2 0) (after (store 2 0 true) with_serialiser))
              (<["foo" := VInt 1]> ∅))
    as (Hc & _ & Hg).
  - constructor.
  - reflexivity.
  - vm_compute. reflexivity.
  - intros H. vm_compute in H. discriminate.
  - vm_compute. repeat constructor.
  - intros item Hitem. vm_compute in Hitem.
    apply list_elem_of_singleton in Hitem as ->. eexists. vm_compute. reflexivity.
  - eexists. vm_compute. reflexivity.
  - reflexivity.
  - apply run_ok. vm_compute. reflexivity.
  - split; [rewrite Hc; reflexivity|].
    apply (Hg (_ItemToRecord.Build "foo" 0 (Attr "foo") (Attr "foo") true)).
    vm_compute. constructor.
Defined.

Lemma store_steps_disk self w w1 :
  store_steps self true w = (Ok tt, w1) ->
  _defer (mementos w self) = false ->
  (0 <= _max_states (mementos w self))%Z ->
  exists s,
    take_snapshot (_items_to_record (mementos w self)) (heap w) ∅ = Ok s /\
    _serialiser (mementos w self) = true /\
    disk w1 !! _serialisation_identifier (mementos w self) = Some s.
Proof.
  intros E Hd HM. revert E. unfold store_steps. unfold_monad.
  rewrite Hd. destruct (target_truth _) eqn:Ht; [|done]. simpl.
  destruct (take_snapshot _ _ _) as [s| |] eqn:Hs; [|done|done].
  unfold serialise, bind, get_memento, raise. simpl.
  rewrite fn_lookup_insert. simpl.
  destruct (_serialiser (mementos w self)); [|done]. simpl.
  destruct (push_state_head (_max_states (mementos w self)) s
              (_states (mementos w self)) HM) as [rest ->].
  intros [= <-]. exists s. simpl. by rewrite lookup_insert_eq.
Qed.

(** X22. Persistence round trip on an ungrouped tracker with at least one
    binding, all attributes of its target with distinct labels: after
    [store(serialise=True)] has returned, and whatever the objects have become
    since, [deserialise] leaves under every label the value the getter of its
    binding read at the store. *)
Theorem persist_roundtrip fuel self w w1 h o :
  ungrouped self w ->
  _defer (mementos w self) = false ->
  (0 <= _max_states (mementos w self))%Z ->
  attribute_bindings (mementos w self) ->
  NoDup (labels (mementos w self)) ->
  _items_to_record (mementos w self) <> [] ->
  store (S fuel) self true w = (Ok tt, w1) ->
  h !! _target (mementos w self) = Some o ->
  exists r w' o',
    deserialise (S (S fuel)) self (set_heap h w1) = (r, w') /\
    r <> OutOfFuel /\
    heap w' = <[_target (mementos w self) := o']> h /\
    forall item, item ∈ _items_to_record (mementos w self) ->
      exists v, _ItemToRecord.get item (heap w) = Ok v /\
                attrs o' !! _ItemToRecord.label item = Some v.
Proof.
  intros Hu Hd HM Hall Hnd Hne. rewrite store_ungrouped by done. intros E Ho.
  destruct (store_steps_disk _ _ _ E Hd HM) as (s & Hs & Hser & Hdisk).
  apply store_steps_frame in E.
  pose proof (take_snapshot_lookup _ _ _ _ Hs Hnd) as [Hlook _].
  set (w2 := set_heap h w1).
  assert (Hit : _items_to_record (mementos w2 self) = _items_to_record (mementos w self))
    by apply E.
  assert (Htg : _target (mementos w2 self) = _target (mementos w self)) by apply E.
  destruct (deserialise_ungrouped fuel self w2 s o)
    as (r & w' & o' & E2 & Hr & Hh & _ & Hl & _).
  { apply (ungrouped_same self w); [apply E|done]. }
  { unfold w2. simpl. by rewrite (sb_serialiser _ _ _ E). }
  { unfold w2. simpl. by rewrite (sb_ident _ _ _ E). }
  { destruct (_items_to_record (mementos w self)) as [|item items] eqn:Hitems; [done|].
    destruct (Hlook item) as (v & _ & Hv); [constructor|].
    intros ->. by rewrite lookup_empty in Hv. }
  { unfold attribute_bindings. by rewrite Hit, Htg. }
  { rewrite Hit. intros item Hitem. destruct (Hlook item Hitem) as (v & _ & ->). done. }
  { by rewrite Htg. }
  exists r, w', o'. rewrite Htg, Hit in *. split; [done|]. split; [done|]. split; [done|].
  intros item Hitem. destruct (Hlook item Hitem) as (v & Hg & Hv). exists v.
  split; [done|]. by rewrite Hl.
Qed.

Lemma persist_roundtrip_witness :
  exists r w',
    deserialise 2 0 (set_heap (heap_foo 77) (after (store 1 0 true) with_serialiser)) =
      (r, w') /\
    r <> OutOfFuel /\
    getattr (heap w') 0 "foo" = Some (VInt 1).
Proof.
  destruct (persist_roundtrip 0 0 with_serialiser (after (store 1 0 true) with_serialiser)
              (heap_foo 77) (foo_object 77))
    as (r & w' & o' & E & Hr & Hh & Hv).
  - constructor.
  - reflexivity.
  - vm_compute. discriminate.
  - vm_compute. repeat constructor.
  - vm_compute. apply NoDup_singleton.
  - vm_compute. discriminate.
  - apply run_ok. vm_compute. reflexivity.
  - reflexivity.
  - exists r, w'. split; [exact E|]. split; [exact Hr|].
    destruct (Hv (_ItemToRecord.Build "foo" 0 (Attr "foo") (Attr "foo") true))
      as (v & Hg & Ha); [vm_compute; constructor|].
    vm_compute in Hg. injection Hg as <-.
    unfold getattr. rewrite Hh. simpl. rewrite lookup_insert_eq. exact Ha.
Defined.

(** ** Restore after a sequence of stores *)





(** ** Signal *)

Lemma list_remove_head x l : list_remove x (x :: l) = Some l.
Proof. simpl. by rewrite bool_decide_eq_true_2. Qed.

Lemma remove_all_skip slot y rs : forall l,
  Forall (fun r => r = slot) rs -> y <> slot ->
  Signal.remove_all rs (y :: l) =
  match Signal.remove_all rs l with
  | Ok l' => Ok (y :: l')
  | Raise e => Raise e
  | OutOfFuel => OutOfFuel
  end.
Proof.
  induction rs as [|r rs IH]; intros l Hall Hne; [done|].
  apply list.Forall_cons in Hall as [-> Hall].
  cbn [Signal.remove_all list_remove]. rewrite bool_decide_eq_false_2 by done.
  destruct (list_remove slot l) as [l'|]; simpl; [|done]. by apply IH.
Qed.

(** The removal loop of [disconnect], given every occurrence of the slot,
    leaves the other slots in their order. *)
Lemma remove_all_filter slot (l : list nat) :
  Signal.remove_all (filter (fun s => s = slot) l) l =
  Ok (filter (fun s => s <> slot) l).
Proof.
  induction l as [|y l IH]; [done|].
  rewrite !filter_cons. destruct (decide (y = slot)) as [->|Hne].
  - destruct (decide (slot <> slot)); [done|].
    cbn [Signal.remove_all]. by rewrite list_remove_head.
  - destruct (decide (y <> slot)); [|done].
    rewrite (remove_all_skip slot); [by rewrite IH| |done].
    apply list.Forall_forall. intros x Hx. by apply list_elem_of_filter in Hx as [Hx _].
Qed.

Lemma reverse_all_equal (slot : nat) (l : list nat) :
  Forall (fun s => s = slot) l -> reverse l = l.
Proof.
  intros H. assert (Hr : l = replicate (length l) slot).
  { induction H as [|x l -> _ IH]; [done|]. simpl. by rewrite <- IH. }
  rewrite Hr. apply reverse_replicate.
Qed.

Lemma disconnect_truthy truthy slot (l : list nat) :
  truthy slot = true ->
  Signal.disconnect truthy slot l =
  (Ok (bool_decide (slot ∈ l)), filter (fun s => s <> slot) l).
Proof.
  intros Ha. unfold Signal.disconnect.
  assert (Hf : filter (fun p => truthy p = true /\ p = slot) l =
               filter (fun s => s = slot) l).
  { apply list_filter_iff. intros x. split; [by intros [_ ?]|]. intros ->. done. }
  rewrite Hf.
  assert (Hall : Forall (fun s => s = slot) (filter (fun s => s = slot) l)).
  { apply list.Forall_forall. intros x Hx. by apply list_elem_of_filter in Hx as [Hx _]. }
  rewrite (reverse_all_equal slot) by done. rewrite remove_all_filter.
  destruct (filter (fun s => s = slot) l) as [|x rest] eqn:E.
  - rewrite bool_decide_eq_false_2.
    + f_equal. symmetry. clear Hf Hall. induction l as [|y l IH]; [done|].
      rewrite filter_cons in E. rewrite filter_cons.
      destruct (decide (y = slot)); [done|]. destruct (decide (y <> slot)); [|done].
      by rewrite IH.
    + intros Hin. assert (slot ∈ filter (fun s => s = slot) l)
        by (by apply list_elem_of_filter).
      rewrite E in H. by apply elem_of_nil in H.
  - rewrite bool_decide_eq_true_2; [done|].
    assert (Hx : x ∈ filter (fun s => s = slot) l) by (rewrite E; constructor).
    by apply list_elem_of_filter in Hx as [-> Hx].
Qed.

(** A slot that is false, or was collected, is not found by [disconnect]. *)
Lemma disconnect_falsy truthy slot (l : list nat) :
  truthy slot = false -> Signal.disconnect truthy slot l = (Ok false, l).
Proof.
  intros Ha. unfold Signal.disconnect.
  assert (Hf : filter (fun p => truthy p = true /\ p = slot) l = []).
  { induction l as [|y l IH]; [done|]. rewrite filter_cons.
    destruct (decide (truthy y = true /\ y = slot)) as [[Hy ->]|_]; [congruence|done]. }
  by rewrite Hf.
Qed.

(** X23. [Signal.disconnect] tests the truth of the slot behind each weak
    reference.  For a slot that is true (a function or a method) it answers
    whether the slot was connected and removes every connection of it, leaving
    the other slots in their order: a following [emit] calls the same slots as
    before without that one.  For a slot that is false it answers [False] and
    removes nothing, connected or not; [emit] does not call such a slot. *)
Theorem disconnect_removes_all truthy slot (_slots : list nat) :
  (truthy slot = true ->
   Signal.disconnect truthy slot _slots =
     (Ok (bool_decide (slot ∈ _slots)), filter (fun s => s <> slot) _slots) /\
   Signal.emit truthy (Signal.disconnect truthy slot _slots).2 =
     filter (fun s => s <> slot) (Signal.emit truthy _slots) /\
   slot ∉ Signal.emit truthy (Signal.disconnect truthy slot _slots).2) /\
  (truthy slot = false ->
   Signal.disconnect truthy slot _slots = (Ok false, _slots) /\
   slot ∉ Signal.emit truthy _slots).
Proof.
  split; intros Ha.
  - rewrite disconnect_truthy by done. simpl. split; [done|].
    unfold Signal.emit. split.
    + rewrite !list_filter_filter. apply list_filter_iff. tauto.
    + intros H. apply list_elem_of_filter in H as [_ H].
      by apply list_elem_of_filter in H as [H _].
  - split; [by apply disconnect_falsy|].
    unfold Signal.emit. intros H. apply list_elem_of_filter in H as [H _]. congruence.
Qed.

Lemma disconnect_removes_all_witness :
  Signal.disconnect all_but_nine 1 [1; 9; 2; 1] = (Ok true, [9; 2]) /\
  Signal.disconnect all_but_nine 9 [1; 9; 2; 1] = (Ok false, [1; 9; 2; 1]).
Proof.
  split.
  - destruct (disconnect_removes_all all_but_nine 1 [1; 9; 2; 1]) as [H _].
    destruct (H eq_refl) as [H1 _]. rewrite H1. reflexivity.
  - destruct (disconnect_removes_all all_but_nine 9 [1; 9; 2; 1]) as [_ H].
    destruct (H eq_refl) as [H1 _]. exact H1.
Defined.

(** X24. [Signal.connect] of a callable answers nothing (not [True]) and
    appends the slot.  A slot that is true is then called last by [emit], and
    when it was not connected before, [disconnect] gives back the slots as
    they were.  A callable that is false is connected all the same, [emit]
    does not call it, and [disconnect] answers [False] and leaves it
    connected. *)
Theorem connect_then_disconnect truthy slot (_slots : list nat) :
  Signal.connect true slot _slots = (None, _slots ++ [slot]) /\
  (truthy slot = true ->
   Signal.emit truthy (_slots ++ [slot]) = Signal.emit truthy _slots ++ [slot] /\
   (slot ∉ _slots ->
    Signal.disconnect truthy slot (_slots ++ [slot]) = (Ok true, _slots))) /\
  (truthy slot = false ->
   Signal.emit truthy (_slots ++ [slot]) = Signal.emit truthy _slots /\
   Signal.disconnect truthy slot (_slots ++ [slot]) = (Ok false, _slots ++ [slot])).
Proof.
  split; [done|]. split; intros Ha.
  - split.
    + unfold Signal.emit. rewrite list.filter_app, filter_cons.
      destruct (decide (truthy slot = true)); done.
    + intros Hn. rewrite disconnect_truthy by done.
      rewrite bool_decide_eq_true_2 by (apply elem_of_app; right; constructor).
      f_equal. rewrite list.filter_app, filter_cons.
      destruct (decide (slot <> slot)); [done|]. rewrite filter_nil, app_nil_r.
      clear -Hn. induction _slots as [|y l IH]; [done|].
      apply not_elem_of_cons in Hn as [Hne Hn]. rewrite filter_cons.
      destruct (decide (y <> slot)); [|done]. by rewrite IH.
  - split; [|by apply disconnect_falsy].
    unfold Signal.emit. rewrite list.filter_app, filter_cons.
    destruct (decide (truthy slot = true)); [congruence|].
    by rewrite filter_nil, app_nil_r.
Qed.

Lemma connect_then_disconnect_witness :
  Signal.disconnect all_but_nine 3 (Signal.connect true 3 [1; 2]).2 = (Ok true, [1; 2]) /\
  Signal.disconnect all_but_nine 9 (Signal.connect true 9 [1; 2]).2 = (Ok false, [1; 2; 9]).
Proof.
  destruct (connect_then_disconnect all_but_nine 3 [1; 2]) as (_ & H & _).
  destruct (connect_then_disconnect all_but_nine 9 [1; 2]) as (_ & _ & H').
  split.
  - apply (H eq_refl). intros Hin.
    apply elem_of_cons in Hin as [?|Hin]; [discriminate|].
    apply list_elem_of_singleton in Hin. discriminate.
  - apply (H' eq_refl).
Defined.

(** ** Inference *)

Lemma setattr_eq fuel self t name v w :
  Inference.__setattr__ fuel self (Some t) name v w =
  try_except (fun e => bool_decide (e = AttributeError) || bool_decide (e = StorageError))
    (if bool_decide (name ∈ labels (mementos w t)) then store fuel t false else ret tt)
    (set_heap (assigned self name [v] (heap w)) w).
Proof. reflexivity. Qed.

Lemma setattr_deferred fuel self t name v w :
  _defer (mementos w t) = true ->
  Inference.__setattr__ (S fuel) self (Some t) name v w =
  (Ok tt, set_heap (alter (fun o => setattr o name v) self (heap w)) w).
Proof.
  intros Hd. rewrite setattr_eq. unfold try_except.
  destruct (bool_decide _); [|done].
  rewrite store_unfold. cbn [mementos set_heap]. by rewrite Hd.
Qed.

Lemma assignments_deferred fuel self t name vs : forall w,
  _defer (mementos w t) = true ->
  for_each vs (fun v => Inference.__setattr__ (S fuel) self (Some t) name v) w =
  (Ok tt, set_heap (assigned self name vs (heap w)) w).
Proof.
  induction vs as [|v vs IH]; intros w Hd.
  - simpl. unfold ret. by rewrite set_heap_id.
  - cbn [for_each]. unfold bind. rewrite setattr_deferred by done.
    rewrite IH by done. by rewrite set_heap_twice.
Qed.

Lemma getattr_alter_other self name v h o n :
  o <> self \/ n <> name ->
  getattr (alter (fun obj => setattr obj name v) self h) o n = getattr h o n.
Proof.
  intros Hon. unfold getattr. destruct (decide (o = self)) as [->|Hne].
  - rewrite lookup_alter_eq. destruct (h !! self) as [obj|]; [|done]. simpl.
    destruct Hon as [?|?]; [done|]. by rewrite lookup_insert_ne.
  - by rewrite lookup_alter_ne.
Qed.

Lemma getattr_alter_same self name v h :
  is_Some (h !! self) ->
  getattr (alter (fun obj => setattr obj name v) self h) self name = Some v.
Proof.
  intros [obj Ho]. unfold getattr. rewrite lookup_alter_eq, Ho. simpl.
  by rewrite lookup_insert_eq.
Qed.

Lemma assigned_alive self name vs : forall h,
  is_Some (h !! self) -> is_Some (assigned self name vs h !! self).
Proof.
  induction vs as [|v vs IH]; intros h Hh; [done|]. apply IH.
  rewrite lookup_alter_eq. destruct Hh as [o ->]. by eexists.
Qed.

Lemma assigned_last self name vs v h :
  is_Some (h !! self) ->
  getattr (assigned self name (vs ++ [v]) h) self name = Some v.
Proof.
  intros Hh. unfold assigned. rewrite foldl_app. simpl.
  apply getattr_alter_same. by apply assigned_alive.
Qed.

Lemma assigned_other self name vs : forall h o n,
  o <> self \/ n <> name ->
  getattr (assigned self name vs h) o n = getattr h o n.
Proof.
  induction vs as [|v vs IH]; intros h o n Hon; [done|].
  simpl. rewrite IH by done. by apply getattr_alter_other.
Qed.

(** The snapshot of a tracker holds, under the label of a plain attribute
    binding, the attribute's value. *)
Lemma snapshot_holds_attribute w t self name cv v :
  _ItemToRecord.Build name self (Attr name) (Attr name) cv
    ∈ _items_to_record (mementos w t) ->
  NoDup (labels (mementos w t)) ->
  getattr (heap w) self name = Some v ->
  (exists s, take_snapshot (_items_to_record (mementos w t)) (heap w) ∅ = Ok s) ->
  snapshot_of w t !! name = Some v.
Proof.
  intros Hin Hnd Hv [s Hs]. unfold snapshot_of. rewrite Hs.
  destruct (take_snapshot_lookup _ _ _ _ Hs Hnd) as [Hl _].
  destruct (Hl _ Hin) as (v' & Hg & Hs'). simpl in Hs'. rewrite Hs'. f_equal.
  revert Hg Hv. unfold _ItemToRecord.get, getattr. simpl.
  destruct (heap w !! self) as [o|]; [|done].
  destruct (attrs o !! name) as [v0|]; [|done].
  rewrite copy_id. congruence.
Qed.

(** X25. Assigning a registered plain attribute of an [Inference] object
    stores: when the tracker can store, the assignment is made and the newest
    entry of the history holds the assigned value under the attribute's name;
    the call raises neither [AttributeError] nor [StorageError]. *)
Theorem setattr_stores_value fuel self t name cv v w :
  is_Some (heap w !! self) ->
  _ItemToRecord.Build name self (Attr name) (Attr name) cv
    ∈ _items_to_record (mementos w t) ->
  NoDup (labels (mementos w t)) ->
  _ACTIVELY_PROCESSING w = [] ->
  can_store false (set_heap (assigned self name [v] (heap w)) w) t ->
  exists r w' s,
    Inference.__setattr__ (S (S fuel)) self (Some t) name v w = (r, w') /\
    r <> OutOfFuel /\ r <> Raise AttributeError /\ r <> Raise StorageError /\
    heap w' = assigned self name [v] (heap w) /\
    _states (mementos w' t) =
      push_state (_max_states (mementos w t)) s (_states (mementos w t)) /\
    _states (mementos w' t) !! 0 = Some s /\
    s !! name = Some v.
Proof.
  intros Hself Hin Hnd Hact Hcan.
  set (w1 := set_heap (assigned self name [v] (heap w)) w) in *.
  destruct (store_top_self fuel false t w1 Hact Hcan) as (r & w' & E & Hr & Hp & _).
  pose proof (store_heap _ _ _ _ _ _ E) as Hh.
  apply pushed_states in Hp.
  assert (Hs : snapshot_of w1 t !! name = Some v).
  { apply (snapshot_holds_attribute w1 t self name cv); try done.
    - unfold w1. simpl. by apply getattr_alter_same.
    - apply Hcan. }
  assert (Hlabel : name ∈ labels (mementos w t)).
  { unfold labels. apply list_elem_of_fmap. eexists. split; [|exact Hin]. done. }
  assert (H0 : _states (mementos w' t) !! 0 = Some (snapshot_of w1 t)).
  { rewrite Hp. destruct Hcan as (_ & _ & _ & HM & _).
    destruct (push_state_head (_max_states (mementos w1 t)) (snapshot_of w1 t)
                (_states (mementos w1 t)) HM) as [rest ->]. done. }
  rewrite setattr_eq. fold w1. unfold try_except.
  rewrite bool_decide_eq_true_2 by done. rewrite E.
  destruct r as [[]|e|]; [| |done].
  - exists (Ok tt), w', (snapshot_of w1 t). by repeat split.
  - destruct (bool_decide (e = AttributeError) || bool_decide (e = StorageError)) eqn:He.
    + exists (Ok tt), w', (snapshot_of w1 t). by repeat split.
    + exists (Raise e), w', (snapshot_of w1 t).
      apply orb_false_iff in He as [He1 He2].
      apply bool_decide_eq_false in He1. apply bool_decide_eq_false in He2.
      repeat split; try done; congruence.
Qed.

Lemma setattr_stores_value_witness :
  exists r w' s,
    Inference.__setattr__ 2 0 (Some 0) "foo" (VInt 7) one_binding = (r, w') /\
    r <> OutOfFuel /\
    _states (mementos w' 0) !! 0 = Some s /\
    s !! "foo" = Some (VInt 7).
Proof.
  destruct (setattr_stores_value 0 0 0 "foo" true (VInt 7) one_binding)
    as (r & w' & s & E & Hr & _ & _ & _ & _ & H0 & Hs).
  - eexists. vm_compute. reflexivity.
  - vm_compute. constructor.
  - vm_compute. apply NoDup_singleton.
  - reflexivity.
  - repeat split; try reflexivity; try (vm_compute; discriminate).
    eexists. vm_compute. reflexivity.
  - exists r, w', s. split; [exact E|]. split; [exact Hr|]. split; [exact H0|exact Hs].
Defined.

(** X26. A store that fails in [Inference.__setattr__] fails silently: when
    the target is false or gone, or a getter finds no attribute, the
    assignment to a registered attribute is made, the call returns normally
    and no snapshot is taken. *)
Theorem setattr_swallows_failure fuel self t name v w :
  name ∈ labels (mementos w t) ->
  _defer (mementos w t) = false ->
  target_truth (assigned self name [v] (heap w) !! _target (mementos w t)) = false \/
  take_snapshot (_items_to_record (mementos w t))
    (assigned self name [v] (heap w)) ∅ = Raise AttributeError ->
  Inference.__setattr__ (S fuel) self (Some t) name v w =
  (Ok tt, set_heap (assigned self name [v] (heap w)) w).
Proof.
  intros Hin Hd Hfail.
  rewrite setattr_eq. unfold try_except.
  rewrite bool_decide_eq_true_2 by done. rewrite store_unfold.
  cbn [mementos set_heap]. rewrite Hd.
  unfold bind, store_steps. unfold_monad. cbn [mementos set_heap heap]. rewrite Hd.
  destruct (target_truth _) eqn:Ht; cbn [negb]; [|done].
  destruct Hfail as [?|Hs]; [done|]. cbn [heap set_heap]. by rewrite Hs.
Qed.

Lemma setattr_swallows_failure_witness :
  Inference.__setattr__ 1 0 (Some 0) "foo" (VInt 7) falsy_target =
  (Ok tt, set_heap (assigned 0 "foo" [VInt 7] (heap falsy_target)) falsy_target).
Proof.
  apply setattr_swallows_failure.
  - vm_compute. constructor.
  - reflexivity.
  - left. vm_compute. reflexivity.
Defined.

(** X27. Assignments to an attribute of an [Inference] object inside an
    [omit] window of its tracker store nothing: the window returns, the
    attribute holds the last value assigned, and the history and the signals
    are as before. *)
Theorem omit_assignments fuel self t name vs v w :
  is_Some (heap w !! self) ->
  exists w',
    omit t (for_each (vs ++ [v])
              (fun x => Inference.__setattr__ (S fuel) self (Some t) name x)) w =
      (Ok tt, w') /\
    getattr (heap w') self name = Some v /\
    _states (mementos w' t) = _states (mementos w t) /\
    _defer (mementos w' t) = false /\
    events w' = events w.
Proof.
  intros Hself. unfold omit, bind. unfold put_defer at 1.
  rewrite assignments_deferred by (simpl; by rewrite fn_lookup_insert).
  unfold put_defer. eexists. split; [done|]. simpl. rewrite !fn_lookup_insert. simpl.
  split; [by apply assigned_last|done].
Qed.

Lemma omit_assignments_witness :
  exists w',
    omit 0 (for_each [VInt 1; VInt 2; VInt 3]
              (fun x => Inference.__setattr__ 1 0 (Some 0) "foo" x)) one_binding =
      (Ok tt, w') /\
    getattr (heap w') 0 "foo" = Some (VInt 3) /\
    _states (mementos w' 0) = [].
Proof.
  destruct (omit_assignments 0 0 0 "foo" [VInt 1; VInt 2] (VInt 3) one_binding)
    as (w' & E & Hg & Hs & _).
  - eexists. vm_compute. reflexivity.
  - exists w'. split; [exact E|]. split; [exact Hg|]. rewrite Hs. reflexivity.
Defined.

(** X28. Assignments to a registered plain attribute of an [Inference]
    object inside a [defer] window give one snapshot for the whole window: the
    history receives exactly one entry, pushed when the window is left, and it
    holds the last value assigned. *)
Theorem defer_assignments fuel self t name cv vs v w :
  is_Some (heap w !! self) ->
  _ItemToRecord.Build name self (Attr name) (Attr name) cv
    ∈ _items_to_record (mementos w t) ->
  NoDup (labels (mementos w t)) ->
  _ACTIVELY_PROCESSING w = [] ->
  can_store false
    (put_defer t false
       (set_heap (assigned self name (vs ++ [v]) (heap w)) (put_defer t true w).2)).2 t ->
  exists r w' s,
    defer (S (S fuel)) t false
      (for_each (vs ++ [v])
         (fun x => Inference.__setattr__ (S fuel) self (Some t) name x)) w = (r, w') /\
    r <> OutOfFuel /\
    _states (mementos w' t) =
      push_state (_max_states (mementos w t)) s (_states (mementos w t)) /\
    _states (mementos w' t) !! 0 = Some s /\
    s !! name = Some v.
Proof.
  intros Hself Hin Hnd Hact Hcan.
  set (h := assigned self name (vs ++ [v]) (heap w)) in *.
  set (w3 := (put_defer t false (set_heap h (put_defer t true w).2)).2) in *.
  destruct (store_top_self fuel false t w3 Hact Hcan) as (r & w' & E & Hr & Hp & _).
  apply pushed_states in Hp.
  assert (Hm : mementos w3 t = set_defer false (mementos w t)).
  { unfold w3. simpl. rewrite !fn_lookup_insert. by apply memento_ext. }
  assert (Hs : snapshot_of w3 t !! name = Some v).
  { apply (snapshot_holds_attribute w3 t self name cv).
    - by rewrite Hm.
    - by rewrite Hm.
    - unfold w3, h. simpl. by apply assigned_last.
    - apply Hcan. }
  assert (H0 : _states (mementos w' t) !! 0 = Some (snapshot_of w3 t)).
  { rewrite Hp. destruct Hcan as (_ & _ & _ & HM & _).
    destruct (push_state_head (_max_states (mementos w3 t)) (snapshot_of w3 t)
                (_states (mementos w3 t)) HM) as [rest ->]. done. }
  rewrite Hm in Hp. simpl in Hp.
  exists r, w', (snapshot_of w3 t). split; [|done].
  unfold defer, defer_with, bind. unfold put_defer at 1.
  rewrite assignments_deferred by (simpl; by rewrite fn_lookup_insert).
  unfold put_defer at 1. exact E.
Qed.

Lemma defer_assignments_witness :
  exists r w' s,
    defer 2 0 false
      (for_each [VInt 1; VInt 2; VInt 3]
         (fun x => Inference.__setattr__ 1 0 (Some 0) "foo" x)) one_binding = (r, w') /\
    r <> OutOfFuel /\
    _states (mementos w' 0) = [s] /\
    s !! "foo" = Some (VInt 3).
Proof.
  destruct (defer_assignments 0 0 0 "foo" true [VInt 1; VInt 2] (VInt 3) one_binding)
    as (r & w' & s & E & Hr & Hst & _ & Hs).
  - eexists. vm_compute. reflexivity.
  - vm_compute. constructor.
  - vm_compute. apply NoDup_singleton.
  - reflexivity.
  - repeat split; try reflexivity; try (vm_compute; discriminate).
    eexists. vm_compute. reflexivity.
  - exists r, w', s. split; [exact E|]. split; [exact Hr|]. split; [|exact Hs].
    rewrite Hst. reflexivity.
Defined.

(** ** Memento.serialise_after *)

(** X29. The function decorated with [serialise_after] answers the result
    of [func] with nothing stored and nothing serialised when the instance has
    no attribute of the accessor's name or a getter finds no attribute (the
    [AttributeError] is swallowed); a [StorageError] is not swallowed: with a
    target that is false or gone the call raises it and the result of [func]
    is lost. *)
Theorem serialise_after_swallows {A} fuel t (func : M A) w a w1 :
  func w = (Ok a, w1) ->
  _defer (mementos w1 t) = false ->
  serialise_after (S fuel) None func w = (Ok a, w1) /\
  (target_truth (heap w1 !! _target (mementos w1 t)) = true ->
   take_snapshot (_items_to_record (mementos w1 t)) (heap w1) ∅ = Raise AttributeError ->
   serialise_after (S fuel) (Some t) func w = (Ok a, w1)) /\
  (target_truth (heap w1 !! _target (mementos w1 t)) = false ->
   serialise_after (S fuel) (Some t) func w = (Raise StorageError, w1)).
Proof.
  intros Hf Hd. unfold serialise_after, bind, try_except. rewrite Hf.
  split; [done|]. rewrite store_unfold, Hd.
  unfold bind, store_steps. unfold_monad. rewrite Hd.
  split.
  - intros -> ->. done.
  - intros ->. done.
Qed.

Lemma serialise_after_swallows_witness :
  serialise_after 1 None (ret 5) one_binding = (Ok 5, one_binding) /\
  serialise_after 1 (Some 0) (ret 5) falsy_target = (Raise StorageError, falsy_target).
Proof.
  split.
  - apply (serialise_after_swallows 0 0 (ret 5) one_binding 5 one_binding);
      reflexivity.
  - apply (serialise_after_swallows 0 0 (ret 5) falsy_target 5 falsy_target);
      reflexivity.
Defined.
